(** * Very Lite Camera: the recording session controller

    The repository is a pair of Python installer scripts
    ([setup_project.py] and its later revision, headed
    "setup_project (2).py") that write an Android project to disk.  The
    only component with state and failure behaviour is the Kotlin class
    [RecordingService] that both scripts emit, with the [MainActivity]
    that sends it its commands.

    This development embeds that Kotlin code: the service's fields and
    the platform objects it drives (MediaRecorder, the main-looper
    Handler, the log, the foreground notification) are an explicit world
    state, Kotlin exceptions are an outcome of a small state-and-exception
    monad, and which platform call throws is decided by an environment
    the theorems quantify over.

    The Python of the scripts themselves, the three helpers and the
    top level that writes the tree, is embedded last, over a model of
    the file tree, the umask and standard output. *)

From Stdlib Require Import ZArith List String Ascii Bool Arith Lia ZifyNat.
Import ListNotations.
Local Open Scope string_scope.

(** ** Option helpers *)

Definition opt_app (a b : option string) : option string :=
  match a, b with
  | Some x, Some y => Some (x ++ y)
  | _, _ => None
  end.

Definition opt_cons (c : ascii) (r : option string) : option string :=
  option_map (String c) r.

(** ** Python string literals

    The Kotlin sources are the bodies of non-raw triple-quoted Python
    literals, so what reaches the Kotlin compiler is the literal's value.
    Backslash followed by a character Python does not recognise stays in
    the value, backslash included. *)

Module Python.

Inductive escape :=
| Char (a : ascii)     (* a recognised one-character escape *)
| Continuation         (* backslash-newline: both dropped *)
| Numeric              (* octal, \x, \N, \u, \U: outside this model *)
| Unrecognised.        (* kept as written, backslash included *)

Definition classify (d : ascii) : escape :=
  let n := nat_of_ascii d in
  if Nat.eqb n 10 then Continuation
  else if Ascii.eqb d "\" then Char "\"
  else if Ascii.eqb d "'" then Char "'"
  else if Nat.eqb n 34 then Char (ascii_of_nat 34)
  else if Ascii.eqb d "a" then Char (ascii_of_nat 7)
  else if Ascii.eqb d "b" then Char (ascii_of_nat 8)
  else if Ascii.eqb d "f" then Char (ascii_of_nat 12)
  else if Ascii.eqb d "n" then Char (ascii_of_nat 10)
  else if Ascii.eqb d "r" then Char (ascii_of_nat 13)
  else if Ascii.eqb d "t" then Char (ascii_of_nat 9)
  else if Ascii.eqb d "v" then Char (ascii_of_nat 11)
  else if (Nat.leb 48 n && Nat.leb n 55)%bool then Numeric
  else if Ascii.eqb d "x" then Numeric
  else if Ascii.eqb d "N" then Numeric
  else if Ascii.eqb d "u" then Numeric
  else if Ascii.eqb d "U" then Numeric
  else Unrecognised.

(** The value of a literal body; [None] where the body uses an escape
    this model leaves out or ends in a lone backslash. *)
Fixpoint literal (s : string) : option string :=
  match s with
  | EmptyString => Some EmptyString
  | String c rest =>
      if Ascii.eqb c "\" then
        match rest with
        | EmptyString => None
        | String d rest' =>
            match classify d with
            | Char a => opt_cons a (literal rest')
            | Continuation => literal rest'
            | Numeric => None
            | Unrecognised => opt_cons "\" (opt_cons d (literal rest'))
            end
        end
      else opt_cons c (literal rest)
  end.

End Python.

(** ** Kotlin string templates *)

Module Kotlin.

Definition is_letter (c : ascii) : bool :=
  let n := nat_of_ascii c in
  ((Nat.leb 65 n && Nat.leb n 90) || (Nat.leb 97 n && Nat.leb n 122))%bool.

Definition is_digit (c : ascii) : bool :=
  let n := nat_of_ascii c in (Nat.leb 48 n && Nat.leb n 57)%bool.

Definition is_ident_start (c : ascii) : bool :=
  (is_letter c || Ascii.eqb c "_")%bool.

Definition is_ident_part (c : ascii) : bool :=
  (is_ident_start c || is_digit c)%bool.

(** Escapes of a Kotlin string literal: backslash followed by one of
    t, b, n, r, a single or double quote, a backslash or a dollar sign.
    Unicode escapes are left out of the model and anything else is
    rejected by the compiler; both give [None]. *)
Definition unescape (d : ascii) : option ascii :=
  if Ascii.eqb d "t" then Some (ascii_of_nat 9)
  else if Ascii.eqb d "b" then Some (ascii_of_nat 8)
  else if Ascii.eqb d "n" then Some (ascii_of_nat 10)
  else if Ascii.eqb d "r" then Some (ascii_of_nat 13)
  else if Ascii.eqb d "'" then Some d
  else if Nat.eqb (nat_of_ascii d) 34 then Some d
  else if Ascii.eqb d "\" then Some d
  else if Ascii.eqb d "$" then Some d
  else None.

Definition scope := list (string * string).

Fixpoint lookup (sc : scope) (x : string) : option string :=
  match sc with
  | [] => None
  | (y, v) :: sc' => if String.eqb x y then Some v else lookup sc' x
  end.

Definition flush (sc : scope) (pending : option string) : option string :=
  match pending with
  | Some x => lookup sc x
  | None => Some EmptyString
  end.

(** The value of a string literal with simple-name templates [$name]
    in scope [sc].  [pending] is the name being read after a [$].
    [${...}] templates are outside the model. *)
Fixpoint template (sc : scope) (pending : option string) (s : string)
  : option string :=
  match s with
  | EmptyString => flush sc pending
  | String c rest =>
      let extends :=
        match pending with
        | Some _ => is_ident_part c
        | None => false
        end in
      if extends then
        template sc (option_map (fun x => x ++ String c EmptyString) pending) rest
      else
        opt_app (flush sc pending)
          (if Ascii.eqb c "\" then
             match rest with
             | EmptyString => None
             | String d rest' =>
                 match unescape d with
                 | Some a => opt_cons a (template sc None rest')
                 | None => None
                 end
             end
           else if Ascii.eqb c "$" then
             match rest with
             | EmptyString => Some (String c EmptyString)
             | String d rest' =>
                 if is_ident_start d
                 then template sc (Some (String d EmptyString)) rest'
                 else if Ascii.eqb d "{" then None
                 else opt_cons c (template sc None rest)
             end
           else opt_cons c (template sc None rest))
  end.

(** A Kotlin literal as it stands in the Python script. *)
Definition eval (sc : scope) (python_body : string) : option string :=
  match Python.literal python_body with
  | Some kt => template sc None kt
  | None => None
  end.

End Kotlin.

(** ** java.text.SimpleDateFormat, for numeric fields *)

Module JavaTime.

(** A broken-down local date and time, month and day counted from 1. *)
Record DateTime := {
  year : nat; month : nat; day : nat;
  hour : nat; minute : nat; second : nat }.

Definition digit (n : nat) : ascii := ascii_of_nat (48 + n mod 10).

Fixpoint digits (fuel n : nat) (acc : string) : string :=
  match fuel with
  | O => acc
  | S fuel' =>
      let acc' := String (digit n) acc in
      if Nat.eqb (n / 10) 0 then acc' else digits fuel' (n / 10) acc'
  end.

Definition decimal (n : nat) : string := digits (S n) n EmptyString.

Fixpoint zeros (k : nat) : string :=
  match k with
  | O => EmptyString
  | S k' => String "0" (zeros k')
  end.

(** Decimal representation, left-padded with zeros to [width]. *)
Definition zeroPad (width n : nat) : string :=
  let d := decimal n in zeros (width - String.length d) ++ d.

(** One run of [count] equal pattern letters. *)
Definition field (dt : DateTime) (letter : ascii) (count : nat)
  : option string :=
  if Ascii.eqb letter "y" then
    Some (if Nat.eqb count 2 then zeroPad 2 (year dt mod 100)
          else zeroPad count (year dt))
  else if Ascii.eqb letter "M" then
    if Nat.leb count 2 then Some (zeroPad count (month dt)) else None
  else if Ascii.eqb letter "d" then Some (zeroPad count (day dt))
  else if Ascii.eqb letter "H" then Some (zeroPad count (hour dt))
  else if Ascii.eqb letter "m" then Some (zeroPad count (minute dt))
  else if Ascii.eqb letter "s" then Some (zeroPad count (second dt))
  else None.

Definition flush (dt : DateTime) (run : option (ascii * nat))
  : option string :=
  match run with
  | Some (l, n) => field dt l n
  | None => Some EmptyString
  end.

(** [SimpleDateFormat(pattern).format(dt)].  Letters are pattern
    letters, every other character is copied; quoting is not modelled.
    [None] is the IllegalArgumentException of an unsupported pattern. *)
Fixpoint format (dt : DateTime) (run : option (ascii * nat)) (p : string)
  : option string :=
  match p with
  | EmptyString => flush dt run
  | String c rest =>
      let same :=
        match run with
        | Some (l, _) => Ascii.eqb c l
        | None => false
        end in
      if same then
        format dt (option_map (fun r => (fst r, S (snd r))) run) rest
      else
        opt_app (flush dt run)
          (if Kotlin.is_letter c then format dt (Some (c, 1)) rest
           else if Ascii.eqb c "'" then None
           else opt_cons c (format dt None rest))
  end.

Definition SimpleDateFormat (pattern : string) (dt : DateTime)
  : option string := format dt None pattern.

End JavaTime.

(** ** The platform, as the service sees it

    MediaRecorder, Handler, Log and the Service base class are Android
    classes, not code of the repository.  They are modelled by their
    effect on a trace of observable events and on the main looper's
    message queue; whether a call throws is read from the environment. *)

Module Platform.

Definition handle := nat.      (* identity of a MediaRecorder *)
Definition runnable := nat.    (* identity of a Runnable *)

Record File := { parent : option string; name : string }.

Definition absolutePath (f : File) : string :=
  match parent f with
  | Some d => d ++ "/" ++ name f
  | None => name f
  end.

(** [File(dir, n)] with a nullable parent. *)
Definition child (dir : option File) (n : string) : File :=
  {| parent := option_map absolutePath dir; name := n |}.

Record Intent := { action : option string }.

Inductive MRCall :=
| setAudioSource | setVideoSource | setOutputFormat
| setOutputFile (path : option string)
| setVideoEncoder | setVideoSize (width height : Z)
| setVideoFrameRate (fps : Z) | setVideoEncodingBitRate (bps : Z)
| setAudioEncoder | setAudioEncodingBitRate (bps : Z)
| setAudioSamplingRate (hz : Z)
| prepare | start | stop | reset | release.

Inductive Call :=
| NewMediaRecorder (withContext : bool)
| OnRecorder (h : handle) (c : MRCall)
| NewToneGenerator
| StartForeground.

Inductive Exception :=
| Thrown (c : Call)
| IllegalArgumentException
| NullPointerException.

Inductive Event :=
| EvNew (h : handle)
| EvCall (h : handle) (c : MRCall) (returned : bool)
| EvLogD (tag msg : string)
| EvLogE (tag msg : string)
| EvPostDelayed (r : runnable) (delay : Z)
| EvRemoveCallbacks (r : runnable)
| EvStartTone (at_ms : Z)
| EvMkdirs (dir : string)
| EvCreateChannel (id : string)
| EvStartForeground (id : Z) (text : string)
| EvStopSelf
| EvToneRelease.

(** What the code cannot control.  [throws n c] says whether the
    platform call [c], made as the [n]-th platform call of the run,
    throws. *)
Record Env := {
  throws : nat -> Call -> bool;
  wallclock : Z -> JavaTime.DateTime;
  SDK_INT : Z;
  externalFilesDir : option File }.

(** The service's fields, then the platform state around it. *)
Record World := {
  mediaRecorder : option handle;
  toneGenerator : option nat;
  beepRunnable : option runnable;
  isRecording : bool;
  outputFile : option File;
  clock : Z;                       (* uptime, milliseconds *)
  queue : list (Z * runnable);     (* pending posts, earliest first *)
  fresh : nat;                     (* next object identity *)
  ncalls : nat;                    (* platform calls made so far *)
  dirs : list string;              (* directories that exist *)
  trace : list Event }.            (* observable effects, oldest first *)

Definition set_mediaRecorder (v : option handle) (w : World) : World :=
  {| mediaRecorder := v; toneGenerator := toneGenerator w;
     beepRunnable := beepRunnable w; isRecording := isRecording w;
     outputFile := outputFile w; clock := clock w; queue := queue w;
     fresh := fresh w; ncalls := ncalls w; dirs := dirs w;
     trace := trace w |}.

Definition set_toneGenerator (v : option nat) (w : World) : World :=
  {| mediaRecorder := mediaRecorder w; toneGenerator := v;
     beepRunnable := beepRunnable w; isRecording := isRecording w;
     outputFile := outputFile w; clock := clock w; queue := queue w;
     fresh := fresh w; ncalls := ncalls w; dirs := dirs w;
     trace := trace w |}.

Definition set_beepRunnable (v : option runnable) (w : World) : World :=
  {| mediaRecorder := mediaRecorder w; toneGenerator := toneGenerator w;
     beepRunnable := v; isRecording := isRecording w;
     outputFile := outputFile w; clock := clock w; queue := queue w;
     fresh := fresh w; ncalls := ncalls w; dirs := dirs w;
     trace := trace w |}.

Definition set_isRecording (v : bool) (w : World) : World :=
  {| mediaRecorder := mediaRecorder w; toneGenerator := toneGenerator w;
     beepRunnable := beepRunnable w; isRecording := v;
     outputFile := outputFile w; clock := clock w; queue := queue w;
     fresh := fresh w; ncalls := ncalls w; dirs := dirs w;
     trace := trace w |}.

Definition set_outputFile (v : option File) (w : World) : World :=
  {| mediaRecorder := mediaRecorder w; toneGenerator := toneGenerator w;
     beepRunnable := beepRunnable w; isRecording := isRecording w;
     outputFile := v; clock := clock w; queue := queue w;
     fresh := fresh w; ncalls := ncalls w; dirs := dirs w;
     trace := trace w |}.

Definition set_clock (v : Z) (w : World) : World :=
  {| mediaRecorder := mediaRecorder w; toneGenerator := toneGenerator w;
     beepRunnable := beepRunnable w; isRecording := isRecording w;
     outputFile := outputFile w; clock := v; queue := queue w;
     fresh := fresh w; ncalls := ncalls w; dirs := dirs w;
     trace := trace w |}.

Definition set_queue (v : list (Z * runnable)) (w : World) : World :=
  {| mediaRecorder := mediaRecorder w; toneGenerator := toneGenerator w;
     beepRunnable := beepRunnable w; isRecording := isRecording w;
     outputFile := outputFile w; clock := clock w; queue := v;
     fresh := fresh w; ncalls := ncalls w; dirs := dirs w;
     trace := trace w |}.

Definition set_fresh (v : nat) (w : World) : World :=
  {| mediaRecorder := mediaRecorder w; toneGenerator := toneGenerator w;
     beepRunnable := beepRunnable w; isRecording := isRecording w;
     outputFile := outputFile w; clock := clock w; queue := queue w;
     fresh := v; ncalls := ncalls w; dirs := dirs w;
     trace := trace w |}.

Definition set_ncalls (v : nat) (w : World) : World :=
  {| mediaRecorder := mediaRecorder w; toneGenerator := toneGenerator w;
     beepRunnable := beepRunnable w; isRecording := isRecording w;
     outputFile := outputFile w; clock := clock w; queue := queue w;
     fresh := fresh w; ncalls := v; dirs := dirs w;
     trace := trace w |}.

Definition set_dirs (v : list string) (w : World) : World :=
  {| mediaRecorder := mediaRecorder w; toneGenerator := toneGenerator w;
     beepRunnable := beepRunnable w; isRecording := isRecording w;
     outputFile := outputFile w; clock := clock w; queue := queue w;
     fresh := fresh w; ncalls := ncalls w; dirs := v;
     trace := trace w |}.

Definition log (e : Event) (w : World) : World :=
  {| mediaRecorder := mediaRecorder w; toneGenerator := toneGenerator w;
     beepRunnable := beepRunnable w; isRecording := isRecording w;
     outputFile := outputFile w; clock := clock w; queue := queue w;
     fresh := fresh w; ncalls := ncalls w; dirs := dirs w;
     trace := trace w ++ [e] |}.

(** *** State and exceptions *)

Inductive Outcome (A : Type) :=
| Ret (a : A)
| Raise (e : Exception).
Arguments Ret {A} a.
Arguments Raise {A} e.

Definition M (A : Type) := World -> Outcome A * World.

Definition ret {A} (a : A) : M A := fun w => (Ret a, w).

Definition bind {A B} (m : M A) (k : A -> M B) : M B :=
  fun w =>
    match m w with
    | (Ret a, w') => k a w'
    | (Raise e, w') => (Raise e, w')
    end.

Definition raise {A} (e : Exception) : M A := fun w => (Raise e, w).

(** [try { m } catch (e: Exception) { h e }] *)
Definition try_catch {A} (m : M A) (h : Exception -> M A) : M A :=
  fun w =>
    match m w with
    | (Ret a, w') => (Ret a, w')
    | (Raise e, w') => h e w'
    end.

Definition get {A} (f : World -> A) : M A := fun w => (Ret (f w), w).

Definition modify (f : World -> World) : M unit := fun w => (Ret tt, f w).

Definition emit (e : Event) : M unit := modify (log e).

Definition new_object : M nat :=
  fun w => (Ret (fresh w), set_fresh (S (fresh w)) w).

End Platform.

Declare Scope service_scope.
Delimit Scope service_scope with service.
Notation "x <- m ;; k" := (Platform.bind m (fun x => k))
  (at level 61, m at next level, right associativity) : service_scope.
Notation "m ;; k" := (Platform.bind m (fun _ => k))
  (at level 61, right associativity) : service_scope.

(** ** RecordingService *)

Module RecordingService.
Import Platform.
Local Open Scope service_scope.
Local Open Scope Z_scope.

(** The two scripts emit the same class up to three string literals. *)
Inductive SourceFile := setup_project_py | setup_project_2_py.

Definition ACTION_START_RECORDING (src : SourceFile) : string :=
  match src with
  | setup_project_py => "com.lowquality.videorecorder.START_RECORDING"
  | setup_project_2_py => "START_RECORDING"
  end.

Definition ACTION_STOP_RECORDING (src : SourceFile) : string :=
  match src with
  | setup_project_py => "com.lowquality.videorecorder.STOP_RECORDING"
  | setup_project_2_py => "STOP_RECORDING"
  end.

(** The literal naming the output file, as written in each script. *)
Definition outputFile_literal (src : SourceFile) : string :=
  match src with
  | setup_project_py => "VID_$timestamp.mp4"
  | setup_project_2_py => "VID_\$timestamp.mp4"
  end.

Definition NOTIFICATION_ID : Z := 1.
Definition CHANNEL_ID : string := "recording_channel".
Definition TAG : string := "RecordingService".
Definition BEEP_INTERVAL_MS : Z := 30000.
Definition START_STICKY : Z := 1.
Definition VERSION_CODES_O : Z := 26.
Definition VERSION_CODES_S : Z := 31.

(** *** Platform primitives *)

Section Primitives.
Variable env : Env.

(** A platform call that may throw: the environment decides. *)
Definition platform (c : Call) : M unit :=
  fun w =>
    let w' := set_ncalls (S (ncalls w)) w in
    if throws env (ncalls w) c then (Raise (Thrown c), w')
    else (Ret tt, w').

Definition newMediaRecorder (withContext : bool) : M handle :=
  platform (NewMediaRecorder withContext) ;;
  h <- new_object ;;
  emit (EvNew h) ;;
  ret h.

(** One method call on recorder [h]; the trace records how it ended. *)
Definition on_recorder (h : handle) (c : MRCall) : M unit :=
  try_catch
    (platform (OnRecorder h c) ;; emit (EvCall h c true))
    (fun e => emit (EvCall h c false) ;; raise e).

Fixpoint on_recorder_all (h : handle) (cs : list MRCall) : M unit :=
  match cs with
  | [] => ret tt
  | c :: cs' => on_recorder h c ;; on_recorder_all h cs'
  end.

Definition Log_d (tag msg : string) : M unit := emit (EvLogD tag msg).
Definition Log_e (tag msg : string) : M unit := emit (EvLogE tag msg).

(** The message queue keeps posts by due time, a new post after the
    posts already due at the same time. *)
Fixpoint enqueue (m : Z * runnable) (q : list (Z * runnable))
  : list (Z * runnable) :=
  match q with
  | [] => [m]
  | m' :: q' =>
      if fst m <? fst m' then m :: q else m' :: enqueue m q'
  end.

Definition postDelayed (r : runnable) (delay : Z) : M unit :=
  emit (EvPostDelayed r delay) ;;
  modify (fun w => set_queue (enqueue (clock w + delay, r) (queue w)) w).

Definition removeCallbacks (r : runnable) : M unit :=
  emit (EvRemoveCallbacks r) ;;
  modify (fun w =>
    set_queue (filter (fun m => negb (Nat.eqb (snd m) r)) (queue w)) w).

Definition startForeground (id : Z) (text : string) : M unit :=
  platform StartForeground ;; emit (EvStartForeground id text).

Definition stopSelf : M unit := emit EvStopSelf.

Definition exists_ (f : File) : M bool :=
  get (fun w => existsb (String.eqb (absolutePath f)) (dirs w)).

Definition mkdirs (f : File) : M unit :=
  emit (EvMkdirs (absolutePath f)) ;;
  modify (fun w => set_dirs (absolutePath f :: dirs w) w).

Definition format_now (pattern : string) : M string :=
  now <- get (fun w => wallclock env (clock w)) ;;
  match JavaTime.SimpleDateFormat pattern now with
  | Some s => ret s
  | None => raise IllegalArgumentException
  end.

Definition string_literal (sc : Kotlin.scope) (body : string) : M string :=
  match Kotlin.eval sc body with
  | Some s => ret s
  | None => raise IllegalArgumentException
  end.

End Primitives.

(** *** The class *)

Section Service.
Variable env : Env.
Variable src : SourceFile.

Definition createNotificationChannel : M unit :=
  if VERSION_CODES_O <=? SDK_INT env
  then emit (EvCreateChannel CHANNEL_ID)
  else ret tt.

Definition onCreate : M unit :=
  createNotificationChannel ;;
  platform env NewToneGenerator ;;
  t <- new_object ;;
  modify (set_toneGenerator (Some t)).

Definition playBeep : M unit :=
  t <- get toneGenerator ;;
  match t with
  | Some _ => now <- get clock ;; emit (EvStartTone now)
  | None => ret tt
  end.

(** [run()] of the anonymous Runnable [r] that startBeepTimer makes. *)
Definition run (r : runnable) : M unit :=
  playBeep ;;
  postDelayed r BEEP_INTERVAL_MS.

Definition startBeepTimer : M unit :=
  r <- new_object ;;
  modify (set_beepRunnable (Some r)) ;;
  b <- get beepRunnable ;;
  match b with
  | Some r' => postDelayed r' BEEP_INTERVAL_MS
  | None => raise NullPointerException
  end.

Definition stopBeepTimer : M unit :=
  b <- get beepRunnable ;;
  match b with
  | Some it => removeCallbacks it
  | None => ret tt
  end ;;
  modify (set_beepRunnable None).

Definition stopRecording : M unit :=
  try_catch
    (stopBeepTimer ;;
     m <- get mediaRecorder ;;
     match m with
     | Some h => on_recorder_all env h [stop; reset; release]
     | None => ret tt
     end ;;
     modify (set_mediaRecorder None) ;;
     modify (set_isRecording false) ;;
     Log_d TAG "Recording stopped")
    (fun e => Log_e TAG "Error stopping recording").

Definition configuration (path : option string) : list MRCall :=
  [ setAudioSource; setVideoSource; setOutputFormat;
    setOutputFile path; setVideoEncoder; setVideoSize 640 480;
    setVideoFrameRate 24; setVideoEncodingBitRate 1500000;
    setAudioEncoder; setAudioEncodingBitRate 64000;
    setAudioSamplingRate 22050; prepare; start ].

Definition startRecording : M unit :=
  try_catch
    (timestamp <- format_now env "yyyyMMdd_HHmmss" ;;
     let videoDir := child (externalFilesDir env) "Videos" in
     present <- exists_ videoDir ;;
     (if negb present then mkdirs videoDir else ret tt) ;;
     fname <- string_literal [("timestamp", timestamp)]
                (outputFile_literal src) ;;
     modify (set_outputFile (Some (child (Some videoDir) fname))) ;;
     h <- newMediaRecorder env (VERSION_CODES_S <=? SDK_INT env) ;;
     modify (set_mediaRecorder (Some h)) ;;
     m <- get mediaRecorder ;;
     match m with
     | Some h' =>
         f <- get outputFile ;;
         on_recorder_all env h'
           (configuration (option_map absolutePath f))
     | None => ret tt
     end ;;
     modify (set_isRecording true) ;;
     startBeepTimer ;;
     startForeground env NOTIFICATION_ID "Recording..." ;;
     Log_d TAG "Recording started")
    (fun e =>
       Log_e TAG "Error starting recording" ;;
       stopRecording).

(** [intent?.action] *)
Definition action_of (intent : option Intent) : option string :=
  match intent with
  | Some i => action i
  | None => None
  end.

(** A branch [c ->] of [when (a)]. *)
Definition is_case (a : option string) (c : string) : bool :=
  match a with
  | Some x => String.eqb x c
  | None => false
  end.

Definition onStartCommand (intent : option Intent) : M Z :=
  (if is_case (action_of intent) (ACTION_START_RECORDING src) then
     rec <- get isRecording ;;
     if negb rec then startRecording else ret tt
   else if is_case (action_of intent) (ACTION_STOP_RECORDING src) then
     stopRecording ;;
     stopSelf
   else ret tt) ;;
  ret START_STICKY.

Definition onDestroy : M unit :=
  stopRecording ;;
  t <- get toneGenerator ;;
  match t with
  | Some _ => emit EvToneRelease
  | None => ret tt
  end ;;
  modify (set_toneGenerator None).

(** *** The run of a service: commands and the looper *)

Inductive Step :=
| Command (intent : option Intent)   (* onStartCommand *)
| Elapse (ms : nat)                  (* time passes, nothing runs *)
| Deliver                            (* the looper runs a due post *)
| Next.                              (* the looper idles to the next
                                        post's due time and runs it *)

Definition step (s : Step) (w : World) : World :=
  match s with
  | Command i => snd (onStartCommand i w)
  | Elapse ms => set_clock (clock w + Z.of_nat ms) w
  | Deliver =>
      match queue w with
      | (due, r) :: q =>
          if due <=? clock w then snd (run r (set_queue q w)) else w
      | [] => w
      end
  | Next =>
      match queue w with
      | (due, r) :: q =>
          snd (run r (set_queue q (set_clock (Z.max (clock w) due) w)))
      | [] => w
      end
  end.

Definition exec (ss : list Step) (w : World) : World :=
  fold_left (fun w s => step s w) ss w.

End Service.

(** A freshly constructed service object in a quiet process. *)
Definition new_service : World :=
  {| mediaRecorder := None; toneGenerator := None; beepRunnable := None;
     isRecording := false; outputFile := None; clock := 0; queue := [];
     fresh := 0; ncalls := 0; dirs := []; trace := [] |}.

Definition Start (src : SourceFile) : Step :=
  Command (Some {| action := Some (ACTION_START_RECORDING src) |}).

Definition Stop (src : SourceFile) : Step :=
  Command (Some {| action := Some (ACTION_STOP_RECORDING src) |}).

(** *** Observations on a trace *)

Definition is_release_of (h : handle) (e : Event) : bool :=
  match e with
  | EvCall h' release true => Nat.eqb h h'
  | _ => false
  end.

Definition releases (tr : list Event) (h : handle) : nat :=
  List.length (filter (is_release_of h) tr).

(** The recorders held after event [e], given those held before it. *)
Definition hold (l : list handle) (e : Event) : list handle :=
  match e with
  | EvNew h => l ++ [h]
  | EvCall h release true => filter (fun x => negb (Nat.eqb x h)) l
  | _ => l
  end.

(** Recorders constructed and not yet released. *)
Definition held (tr : list Event) : list handle := fold_left hold tr [].

Fixpoint tones (tr : list Event) : list Z :=
  match tr with
  | [] => []
  | EvStartTone t :: tr' => t :: tones tr'
  | _ :: tr' => tones tr'
  end.

Definition is_timer_event (e : Event) : bool :=
  match e with
  | EvPostDelayed _ _ | EvRemoveCallbacks _ => true
  | _ => false
  end.

(** The controller's states, read off the fields. *)
Definition Idle (w : World) : Prop :=
  mediaRecorder w = None /\ isRecording w = false /\ beepRunnable w = None.

End RecordingService.

(** ** MainActivity

    The activity owns the permission check and is the only sender of
    commands: the manifest declares the service with exported = false. *)

Module MainActivity.
Local Open Scope Z_scope.

Inductive Permission :=
| CAMERA | RECORD_AUDIO | WRITE_EXTERNAL_STORAGE | READ_EXTERNAL_STORAGE.

Definition REQUEST_CODE_PERMISSIONS : Z := 10.

Definition REQUIRED_PERMISSIONS : list Permission :=
  [CAMERA; RECORD_AUDIO; WRITE_EXTERNAL_STORAGE; READ_EXTERNAL_STORAGE].

Inductive UiEvent :=
| UiCheckSelfPermission (p : Permission)
| UiRequestPermissions (ps : list Permission) (code : Z)
| UiStartForegroundService (action : string)
| UiStartService (action : string)
| UiToast (text : string)
| UiRender (button status : string) (indicator : bool)
| UiFinish.

Record Activity := {
  isRecording : bool;
  btnRecord_listener : bool;      (* setOnClickListener was called *)
  btnSettings_listener : bool;
  out : list UiEvent }.           (* effects, oldest first *)

Definition new_activity : Activity :=
  {| isRecording := false; btnRecord_listener := false;
     btnSettings_listener := false; out := [] |}.

Definition say (e : UiEvent) (a : Activity) : Activity :=
  {| isRecording := isRecording a;
     btnRecord_listener := btnRecord_listener a;
     btnSettings_listener := btnSettings_listener a;
     out := out a ++ [e] |}.

Definition set_isRecording (v : bool) (a : Activity) : Activity :=
  {| isRecording := v;
     btnRecord_listener := btnRecord_listener a;
     btnSettings_listener := btnSettings_listener a;
     out := out a |}.

Definition set_listeners (a : Activity) : Activity :=
  {| isRecording := isRecording a;
     btnRecord_listener := true;
     btnSettings_listener := true;
     out := out a |}.

Section Activity.
(** [checkSelfPermission(p) == PERMISSION_GRANTED] *)
Variable granted : Permission -> bool.
Variable src : RecordingService.SourceFile.

(** [ps.all { granted }], which stops at the first refusal. *)
Fixpoint all (ps : list Permission) (a : Activity) : bool * Activity :=
  match ps with
  | [] => (true, a)
  | p :: ps' =>
      let a' := say (UiCheckSelfPermission p) a in
      if granted p then all ps' a' else (false, a')
  end.

Definition allPermissionsGranted (a : Activity) : bool * Activity :=
  all REQUIRED_PERMISSIONS a.

Definition updateRecordingStatus (recording : bool) (a : Activity)
  : Activity :=
  if recording
  then say (UiRender "⏹ Stop Recording" "Recording..." true) a
  else say (UiRender "⏺ Start Recording" "Ready to record" false) a.

Definition startRecording (a : Activity) : Activity :=
  let a := say (UiStartForegroundService
                  (RecordingService.ACTION_START_RECORDING src)) a in
  let a := set_isRecording true a in
  let a := updateRecordingStatus true a in
  say (UiToast "Recording started") a.

Definition stopRecording (a : Activity) : Activity :=
  let a := say (UiStartService
                  (RecordingService.ACTION_STOP_RECORDING src)) a in
  let a := set_isRecording false a in
  let a := updateRecordingStatus false a in
  say (UiToast "Recording stopped") a.

Definition setupUI (a : Activity) : Activity :=
  set_listeners (updateRecordingStatus false a).

Definition onCreate (a : Activity) : Activity :=
  let (ok, a) := allPermissionsGranted a in
  if ok then setupUI a
  else say (UiRequestPermissions REQUIRED_PERMISSIONS
              REQUEST_CODE_PERMISSIONS) a.

Definition onRequestPermissionsResult (requestCode : Z) (a : Activity)
  : Activity :=
  if requestCode =? REQUEST_CODE_PERMISSIONS then
    let (ok, a) := allPermissionsGranted a in
    if ok then setupUI a
    else say UiFinish (say (UiToast "Permissions required") a)
  else a.

Definition onDestroy (a : Activity) : Activity :=
  if isRecording a then stopRecording a else a.

Inductive Input :=
| Create
| PressRecord
| PressSettings
| PermissionsResult (requestCode : Z)
| Destroy.

Definition step (i : Input) (a : Activity) : Activity :=
  match i with
  | Create => onCreate a
  | PressRecord =>
      if btnRecord_listener a then
        if isRecording a then stopRecording a else startRecording a
      else a
  | PressSettings =>
      if btnSettings_listener a
      then say (UiToast "Settings: 480p @ 1.5 Mbps") a
      else a
  | PermissionsResult c => onRequestPermissionsResult c a
  | Destroy => onDestroy a
  end.

Definition exec (inputs : list Input) (a : Activity) : Activity :=
  fold_left (fun a i => step i a) inputs a.

End Activity.

(** The commands the host delivers to the service for a run of the
    activity. *)
Fixpoint commands (es : list UiEvent) : list RecordingService.Step :=
  match es with
  | [] => []
  | UiStartForegroundService x :: es'
  | UiStartService x :: es' =>
      RecordingService.Command (Some {| Platform.action := Some x |})
        :: commands es'
  | _ :: es' => commands es'
  end.

Fixpoint gate_queries (es : list UiEvent) : nat :=
  match es with
  | [] => O
  | UiCheckSelfPermission _ :: es' => S (gate_queries es')
  | _ :: es' => gate_queries es'
  end.

Definition is_report (e : UiEvent) : bool :=
  match e with
  | UiToast _ | UiRender _ _ _ => true
  | _ => false
  end.

End MainActivity.

(** * Specification vocabulary *)

Import Platform RecordingService.
Local Open Scope service_scope.

(** [triple P m N X]: started in a world satisfying [P], [m] either
    returns [a] in a world satisfying [N a] or throws in a world
    satisfying [X]. *)
Definition triple {A} (P : World -> Prop) (m : M A)
    (N : A -> World -> Prop) (X : World -> Prop) : Prop :=
  forall w, P w ->
    match m w with
    | (Ret a, w') => N a w'
    | (Raise _, w') => X w'
    end.

(** A computation keeps [P] however it ends. *)
Definition keeps {A} (P : World -> Prop) (m : M A) : Prop :=
  triple P m (fun _ => P) P.

(** An assertion that the platform calls of the recorder path cannot
    disturb: it survives any change outside the timer fields and
    [isRecording], and any event that is not a timer event. *)
Definition insensitive (P : World -> Prop) : Prop :=
  forall w, P w ->
    (forall n, P (set_ncalls n w)) /\
    (forall n, P (set_fresh n w)) /\
    (forall e, is_timer_event e = false -> P (log e w)) /\
    (forall d, P (set_dirs d w)) /\
    (forall v, P (set_mediaRecorder v w)) /\
    (forall v, P (set_toneGenerator v w)).

(** An assertion that, beyond that, ignores the timer and [isRecording]:
    only a write to [outputFile] can disturb it. *)
Definition framed (P : World -> Prop) : Prop :=
  insensitive P /\
  forall w, P w ->
    (forall e, P (log e w)) /\
    (forall v, P (set_isRecording v w)) /\
    (forall v, P (set_beepRunnable v w)) /\
    (forall q, P (set_queue q w)).

(** The directory startRecording writes to. *)
Definition videoDir (env : Env) : File := child (externalFilesDir env) "Videos".

(** [outputFile] is the file called [n] in the Videos directory. *)
Definition output_named (env : Env) (n : string) (w : World) : Prop :=
  outputFile w = Some (child (Some (videoDir env)) n).

(** No TimerToken: no runnable is remembered and none is posted. *)
Definition quiet_timer (w : World) : Prop :=
  beepRunnable w = None /\ queue w = [].

(** Every pending post is of the remembered runnable. *)
Definition posts_owned (w : World) : Prop :=
  forall m, In m (queue w) -> beepRunnable w = Some (snd m).

(** The invariant of the timer: a runnable is remembered only while
    [isRecording], and it owns every pending post. *)
Definition timer_inv (w : World) : Prop :=
  (isRecording w = false -> beepRunnable w = None) /\ posts_owned w.

(** The trace is [t0] followed by events none of which is a timer event. *)
Definition trace_ext (t0 : list Event) (w : World) : Prop :=
  exists rest, trace w = (t0 ++ rest)%list /\
    forall e, In e rest -> is_timer_event e = false.

(** What the looper can do on its own. *)
Inductive Looper := Wait (ms : nat) | RunDue | RunNext.

Definition looper (l : Looper) : Step :=
  match l with
  | Wait ms => Elapse ms
  | RunDue => Deliver
  | RunNext => Next
  end.

(** Beep times that start no earlier than one interval after [t0] and
    are at least one interval apart. *)
Fixpoint spaced (t0 : Z) (ts : list Z) : Prop :=
  match ts with
  | [] => True
  | t :: ts' => (t0 + BEEP_INTERVAL_MS <= t)%Z /\ spaced t ts'
  end.

(** The service after [onCreate]. *)
Definition created (env : Env) : World := snd (onCreate env new_service).

(** What stopBeepTimer adds to the trace of [w]. *)
Definition cancellation (w : World) : list Event :=
  match beepRunnable w with
  | Some r => [EvRemoveCallbacks r]
  | None => []
  end.

(** The record button is not wired, the activity is not recording, and
    no command was sent. *)
Definition inert (a : MainActivity.Activity) : Prop :=
  MainActivity.btnRecord_listener a = false /\
  MainActivity.isRecording a = false /\
  MainActivity.commands (MainActivity.out a) = [].

(** *** Environments used as concrete inputs *)

Definition noon : JavaTime.DateTime :=
  {| JavaTime.year := 2024; JavaTime.month := 3; JavaTime.day := 9;
     JavaTime.hour := 12; JavaTime.minute := 5; JavaTime.second := 7 |}.

Definition files : File := {| parent := Some "/storage"; name := "files" |}.

Definition device (faults : nat -> Call -> bool) : Env :=
  {| throws := faults; wallclock := fun _ => noon; SDK_INT := 33;
     externalFilesDir := Some files |}.

(** Every platform call returns. *)
Definition no_faults : Env := device (fun _ _ => false).

(** [stop()] throws, as MediaRecorder does when it is called before
    [start()] or before any data was received. *)
Definition stop_throws : Env :=
  device (fun _ c =>
    match c with
    | OnRecorder _ stop => true
    | _ => false
    end).

(** [prepare()] throws, and so does [stop()] on the recorder that never
    started. *)
Definition prepare_throws : Env :=
  device (fun _ c =>
    match c with
    | OnRecorder _ prepare | OnRecorder _ stop => true
    | _ => false
    end).

(** *** The naming contract, in the specification's words

    fixed prefix, underscore, YYYYMMDD_HHMMSS, fixed extension. *)

Definition two (n : nat) : string :=
  String (JavaTime.digit (n / 10)) (String (JavaTime.digit n) EmptyString).

Definition four (n : nat) : string := two (n / 100) ++ two (n mod 100).

Definition contract_timestamp (dt : JavaTime.DateTime) : string :=
  four (JavaTime.year dt) ++ two (JavaTime.month dt) ++ two (JavaTime.day dt)
  ++ "_" ++
  two (JavaTime.hour dt) ++ two (JavaTime.minute dt) ++ two (JavaTime.second dt).

Definition contract_name (dt : JavaTime.DateTime) : string :=
  "VID" ++ "_" ++ contract_timestamp dt ++ "." ++ "mp4".

Definition calendar (dt : JavaTime.DateTime) : Prop :=
  (JavaTime.year dt < 100 * 100 /\ JavaTime.month dt < 100 /\
   JavaTime.day dt < 100 /\ JavaTime.hour dt < 100 /\
   JavaTime.minute dt < 100 /\ JavaTime.second dt < 100)%nat.

(** The timer invariant with its bound: at most one post is pending. *)
Definition tidy (w : World) : Prop :=
  timer_inv w /\ (List.length (queue w) <= 1)%nat.

(** The commands of an activity that toggles [n] times: Start, Stop,
    Start, ..., beginning with Stop when it is [recording]. *)
Fixpoint alternating (src : SourceFile) (recording : bool) (n : nat)
  : list Step :=
  match n with
  | O => []
  | S n' =>
      (if recording then Stop src else Start src)
        :: alternating src (negb recording) n'
  end.

(** The activity has sent [n] commands in turn and is recording iff the
    last one was a Start. *)
Definition in_step (src : SourceFile) (a : MainActivity.Activity) (n : nat)
  : Prop :=
  MainActivity.commands (MainActivity.out a) = alternating src false n /\
  MainActivity.isRecording a = Nat.odd n.

(** A device whose wall clock advances with the uptime, within one
    minute of [noon]. *)
Definition ticking : Env :=
  {| throws := fun _ _ => false;
     wallclock := fun ms =>
       {| JavaTime.year := 2024; JavaTime.month := 3; JavaTime.day := 9;
          JavaTime.hour := 12; JavaTime.minute := 5;
          JavaTime.second := Z.to_nat (ms / 1000) mod 60 |};
     SDK_INT := 33;
     externalFilesDir := Some files |}.

(** An event that changes neither the set of held recorders nor the
    count of releases. *)
Definition neutral (e : Event) : bool :=
  match e with
  | EvNew _ => false
  | EvCall _ release true => false
  | _ => true
  end.

(** An assertion about the recorder only: it survives every change
    except a write to [mediaRecorder] or [isRecording], the construction
    of a recorder and a successful [release()]. *)
Definition calm (P : World -> Prop) : Prop :=
  forall w, P w ->
    (forall n, P (set_ncalls n w)) /\
    P (set_fresh (S (fresh w)) w) /\
    (forall e, neutral e = true -> P (log e w)) /\
    (forall d, P (set_dirs d w)) /\
    (forall v, P (set_toneGenerator v w)) /\
    (forall v, P (set_outputFile v w)) /\
    (forall v, P (set_beepRunnable v w)) /\
    (forall q, P (set_queue q w)) /\
    (forall t, P (set_clock t w)).

(** The computation returns from every world. *)
Definition returns {A} (m : M A) : Prop :=
  forall w, exists a w', m w = (Ret a, w').

(** Exactly the recorder in the field is held, and the service is
    recording iff there is one. *)
Definition one_recorder (w : World) : Prop :=
  held (trace w) = match mediaRecorder w with
                   | Some h => [h]
                   | None => []
                   end /\
  (isRecording w = true <-> mediaRecorder w <> None).

(** No recorder was released twice, and none that is yet to be made. *)
Definition released_once (w : World) : Prop :=
  (forall h, releases (trace w) h <= 1)%nat /\
  (forall h, fresh w <= h -> releases (trace w) h = 0)%nat.

(** [released_once], and the recorder in the field is not released. *)
Definition field_live (w : World) : Prop :=
  released_once w /\
  forall h, mediaRecorder w = Some h ->
    (releases (trace w) h = 0 /\ h < fresh w)%nat.

(** The recorders held, the field and the flag, all three at once. *)
Definition recorder_state (l : list handle) (m : option handle) (r : bool)
    (w : World) : Prop :=
  held (trace w) = l /\ mediaRecorder w = m /\ isRecording w = r.

(** * The installer scripts

    Around the Kotlin text, each script is a Python program: three
    helpers ([create_directory], [write_file], [make_executable]) and a
    top level that prints a banner, writes every file of the project and
    marks [gradlew] executable.  They are embedded over a model of the
    part of the host they touch: a file tree, the process umask and the
    lines printed to standard output.

    The model is a POSIX file system without symbolic links on which the
    process may write everywhere, with a locale that encodes every
    character.  A path with a [..] component is outside the model: the
    calls raise [OutsideModel] on it, which is no Python exception. *)

Module Installer.

(** ** Paths *)

Definition is_slash (c : ascii) : bool := Ascii.eqb c "/".

(** [p.split('/')] on the characters of [p]. *)
Fixpoint split (l : list ascii) : list (list ascii) :=
  match l with
  | [] => [[]]
  | c :: l' =>
      if is_slash c then [] :: split l'
      else match split l' with
           | x :: xs => (c :: x) :: xs
           | [] => [[c]]
           end
  end.

(** [p[:p.rfind('/') + 1]] *)
Fixpoint head (l : list ascii) : list ascii :=
  match l with
  | [] => []
  | c :: l' => if existsb is_slash l then c :: head l' else []
  end.

(** [s.rstrip('/')] *)
Fixpoint rstrip (l : list ascii) : list ascii :=
  match l with
  | [] => []
  | c :: l' => if forallb is_slash l then [] else c :: rstrip l'
  end.

(** [os.path.dirname]: the head up to the last slash, without its
    trailing slashes unless it consists of slashes only. *)
Definition dirname (p : string) : string :=
  let h := head (list_ascii_of_string p) in
  string_of_list_ascii (if forallb is_slash h then h else rstrip h).

(** A resolved path: the names from the working directory down, or from
    the root, written as a leading component [/]. *)
Definition Key := list string.

Definition proper (x : list ascii) : bool :=
  match x with
  | [] => false
  | [c] => negb (Ascii.eqb c ".")
  | _ => true
  end.

Definition absolute (l : list ascii) : bool :=
  match l with
  | c :: _ => is_slash c
  | [] => false
  end.

Definition components (l : list ascii) : Key :=
  map string_of_list_ascii (filter proper (split l)).

Definition key (p : string) : Key :=
  let l := list_ascii_of_string p in
  ((if absolute l then ["/"] else []) ++ components l)%list.

Definition dotdot (x : list ascii) : bool :=
  String.eqb (string_of_list_ascii x) "..".

Definition climbs (p : string) : bool :=
  existsb dotdot (split (list_ascii_of_string p)).

(** The path ends in a slash or in a dot component: it can only name a
    directory. *)
Definition names_directory (p : string) : bool :=
  match rev (split (list_ascii_of_string p)) with
  | x :: _ => negb (proper x)
  | [] => true
  end.

(** ** The file tree *)

Inductive Node :=
| Dir (mode : N)
| File (data : string) (mode : N).

Definition FS := Key -> option Node.

Definition is_root (k : Key) : bool :=
  match k with
  | [] => true
  | [r] => String.eqb r "/"
  | _ => false
  end.

(** The working directory and the root always exist. *)
Definition lookup (fs : FS) (k : Key) : option Node :=
  if is_root k
  then Some (Dir (match fs k with Some (Dir m) => m | _ => 493%N end))
  else fs k.

Definition update (fs : FS) (k : Key) (n : Node) : FS :=
  fun k' => if list_eq_dec string_dec k' k then Some n else fs k'.

(** Resolution fails with ENOENT ([Missing]) or ENOTDIR ([Blocked]). *)
Inductive Stat :=
| Found (n : Node)
| Missing
| Blocked.

Fixpoint walk (fs : FS) (done rest : Key) : Stat :=
  match rest with
  | [] =>
      match lookup fs done with
      | Some n => Found n
      | None => Missing
      end
  | c :: rest' =>
      match lookup fs done with
      | Some (Dir _) => walk fs (done ++ [c])%list rest'
      | Some (File _ _) => Blocked
      | None => Missing
      end
  end.

Definition stat (fs : FS) (k : Key) : Stat := walk fs [] k.

(** ** The host, exceptions and sequencing *)

Record Host := {
  fs : FS;
  umask : N;
  stdout : list string }.           (* lines printed, oldest first *)

Definition set_fs (f : FS) (h : Host) : Host :=
  {| fs := f; umask := umask h; stdout := stdout h |}.

Inductive Error :=
| FileNotFoundError
| FileExistsError
| NotADirectoryError
| IsADirectoryError
| TypeError
| OutsideModel.

Inductive Result (A : Type) :=
| Done (a : A)
| Raised (e : Error).
Arguments Done {A} a.
Arguments Raised {A} e.

Definition Py (A : Type) := Host -> Result A * Host.

Definition pure {A} (a : A) : Py A := fun h => (Done a, h).

Definition throw {A} (e : Error) : Py A := fun h => (Raised e, h).

Definition seq {A B} (m : Py A) (k : A -> Py B) : Py B :=
  fun h =>
    match m h with
    | (Done a, h') => k a h'
    | (Raised e, h') => (Raised e, h')
    end.

Declare Scope py_scope.
Delimit Scope py_scope with py.
Notation "x <- m ;; k" := (seq m (fun x => k))
  (at level 61, m at next level, right associativity) : py_scope.
Notation "m ;; k" := (seq m (fun _ => k))
  (at level 61, right associativity) : py_scope.
Local Open Scope py_scope.

(** ** The library calls the scripts make *)

Definition print (s : string) : Py unit :=
  fun h => (Done tt, {| fs := fs h; umask := umask h;
                        stdout := stdout h ++ [s] |}).

(** The walk of [os.makedirs(name, exist_ok=True)] down the names of
    [rest] below [done]: a missing directory is made, an existing one
    entered, a file in the way raises. *)
Fixpoint mkdirs (f : FS) (mode : N) (done rest : Key) : Error + FS :=
  match rest with
  | [] => inr f
  | c :: rest' =>
      let k := (done ++ [c])%list in
      match lookup f k with
      | Some (Dir _) => mkdirs f mode k rest'
      | Some (File _ _) =>
          inl (match rest' with
               | [] => FileExistsError
               | _ => NotADirectoryError
               end)
      | None => mkdirs (update f k (Dir mode)) mode k rest'
      end
  end.

(** [os.makedirs(name, exist_ok=True)] *)
Definition makedirs (name : string) : Py unit :=
  fun h =>
    if String.eqb name EmptyString then (Raised FileNotFoundError, h)
    else if climbs name then (Raised OutsideModel, h)
    else match mkdirs (fs h) (N.ldiff 511 (umask h)) [] (key name) with
         | inl e => (Raised e, h)
         | inr f => (Done tt, set_fs f h)
         end.

(** The two modes the scripts open a file in, ['w'] and ['wb']. *)
Inductive OpenMode := w | wb.

(** An open file: where it is, and the mode it was opened in. *)
Record Handle := { target : Key; mode_of : OpenMode }.

(** [open(path, 'w')] and [open(path, 'wb')]: the file is created or
    emptied. *)
Definition open (path : string) (mode : OpenMode) : Py Handle :=
  fun h =>
    if String.eqb path EmptyString then (Raised FileNotFoundError, h)
    else if climbs path then (Raised OutsideModel, h)
    else
      let k := key path in
      match stat (fs h) (removelast k) with
      | Missing => (Raised FileNotFoundError, h)
      | Blocked | Found (File _ _) => (Raised NotADirectoryError, h)
      | Found (Dir _) =>
          match lookup (fs h) k with
          | Some (Dir _) => (Raised IsADirectoryError, h)
          | Some (File _ m) =>
              if names_directory path then (Raised NotADirectoryError, h)
              else (Done {| target := k; mode_of := mode |},
                    set_fs (update (fs h) k (File EmptyString m)) h)
          | None =>
              if names_directory path then (Raised IsADirectoryError, h)
              else (Done {| target := k; mode_of := mode |},
                    set_fs (update (fs h) k
                              (File EmptyString (N.ldiff 438 (umask h)))) h)
          end
      end.

(** What a script hands to [f.write]. *)
Inductive Content :=
| Str (s : string)
| Bytes (b : string).

(** [f.write(content)]: text to a text file, bytes to a binary one. *)
Definition write (f : Handle) (content : Content) : Py unit :=
  fun h =>
    let put s :=
      match lookup (fs h) (target f) with
      | Some (File d m) =>
          (Done tt, set_fs (update (fs h) (target f) (File (d ++ s) m)) h)
      | _ => (Done tt, h)
      end in
    match mode_of f, content with
    | w, Str s => put s
    | wb, Bytes b => put b
    | _, _ => (Raised TypeError, h)
    end.

(** [os.path.exists(path)] *)
Definition exists_ (path : string) : Py bool :=
  fun h =>
    if String.eqb path EmptyString then (Done false, h)
    else if climbs path then (Raised OutsideModel, h)
    else match stat (fs h) (key path) with
         | Found (Dir _) => (Done true, h)
         | Found (File _ _) => (Done (negb (names_directory path)), h)
         | _ => (Done false, h)
         end.

(** [os.chmod(path, mode)] *)
Definition chmod (path : string) (mode : N) : Py unit :=
  fun h =>
    if String.eqb path EmptyString then (Raised FileNotFoundError, h)
    else if climbs path then (Raised OutsideModel, h)
    else
      let k := key path in
      match stat (fs h) k with
      | Found (Dir _) => (Done tt, set_fs (update (fs h) k (Dir mode)) h)
      | Found (File d _) =>
          if names_directory path then (Raised NotADirectoryError, h)
          else (Done tt, set_fs (update (fs h) k (File d mode)) h)
      | Missing => (Raised FileNotFoundError, h)
      | Blocked => (Raised NotADirectoryError, h)
      end.

(** ** The scripts' helpers *)

Definition create_directory (src : SourceFile) (path : string) : Py unit :=
  match src with
  | setup_project_py =>
      makedirs path ;;
      print ("✓ Created directory: " ++ path)
  | setup_project_2_py =>
      if negb (String.eqb path EmptyString) && negb (String.eqb path ".")
      then makedirs path ;;
           print ("✓ Created directory: " ++ path)
      else pure tt
  end.

Definition write_file (src : SourceFile) (path : string) (content : Content)
    (is_binary : bool) : Py unit :=
  create_directory src (dirname path) ;;
  let mode := if is_binary then wb else w in
  f <- open path mode ;;
  write f content ;;
  print ("✓ Created file: " ++ path).

Definition make_executable (path : string) : Py unit :=
  found <- exists_ path ;;
  if found
  then chmod path 493 ;;
       print ("✓ Made executable: " ++ path)
  else pure tt.

(** ** The top level *)

Fixpoint for_each {A} (l : list A) (body : A -> Py unit) : Py unit :=
  match l with
  | [] => pure tt
  | x :: l' => body x ;; for_each l' body
  end.

Fixpoint times (s : string) (n : nat) : string :=
  match n with
  | O => EmptyString
  | S n' => s ++ times s n'
  end.

Definition newline : string := String (ascii_of_nat 10) EmptyString.

(** The keys of the [files] dictionary, in insertion order. *)
Definition files : list string :=
  [ ".github/workflows/build-apk.yml";
    "settings.gradle";
    "gradle.properties";
    "build.gradle";
    "gradle/wrapper/gradle-wrapper.properties";
    ".gitignore";
    "app/build.gradle";
    "app/src/main/res/values/strings.xml";
    "app/src/main/res/drawable/button_background.xml";
    "app/src/main/res/drawable/recording_indicator.xml" ].

Definition MainActivity_kt : string :=
  "app/src/main/java/com/lowquality/videorecorder/MainActivity.kt".
Definition RecordingService_kt : string :=
  "app/src/main/java/com/lowquality/videorecorder/RecordingService.kt".
Definition AndroidManifest_xml : string := "app/src/main/AndroidManifest.xml".
Definition activity_main_xml : string :=
  "app/src/main/res/layout/activity_main.xml".

(** Every path the top level writes, in order. *)
Definition written : list string :=
  (files ++ [ MainActivity_kt; RecordingService_kt; AndroidManifest_xml;
              activity_main_xml; "gradlew"; "gradlew.bat"; "README.md" ])%list.

Definition complete (src : SourceFile) : string :=
  match src with
  | setup_project_py => "✅ PROJECT SETUP COMPLETE!"
  | setup_project_2_py => "✅ PROJECT SETUP COMPLETE (FIXED VERSION)"
  end.

Definition note (src : SourceFile) (s : string) : Py unit :=
  match src with
  | setup_project_py => print s
  | setup_project_2_py => pure tt
  end.

(** The statements of a script, top to bottom.  [text] gives the
    literal each path is written with; [note] is a [print] only the
    first script has. *)
Definition main (src : SourceFile) (text : string -> string) : Py unit :=
  let put path := write_file src path (Str (text path)) false in
  print (times "=" 60) ;;
  print (match src with
         | setup_project_py => "Very Lite Camera - Project Setup"
         | setup_project_2_py => "Very Lite Camera - Project Setup (FIXED)"
         end) ;;
  print (times "=" 60) ;;
  print EmptyString ;;
  for_each files put ;;
  note src (newline ++ "Creating source code files...") ;;
  put MainActivity_kt ;;
  put RecordingService_kt ;;
  put AndroidManifest_xml ;;
  note src (newline ++
    "Note: activity_main.xml is complex. Creating simplified version...") ;;
  note src
    "For full UI, you may need to create it separately or use Android Studio." ;;
  put activity_main_xml ;;
  note src (newline ++ "Creating Gradle wrapper...") ;;
  put "gradlew" ;;
  make_executable "gradlew" ;;
  put "gradlew.bat" ;;
  put "README.md" ;;
  print (newline ++ times "=" 60) ;;
  print (complete src) ;;
  print (times "=" 60) ;;
  match src with
  | setup_project_py =>
      print (newline ++ "All files and folders have been created.") ;;
      print (newline ++ "Next steps:") ;;
      print "1. Commit these files to Git" ;;
      print "2. Push to GitHub" ;;
      print "3. GitHub Actions will build your APK automatically!" ;;
      print (newline ++ "Or build locally with: ./gradlew assembleDebug") ;;
      print EmptyString
  | setup_project_2_py =>
      print (newline ++ "The app should now launch properly!") ;;
      print "MainActivity no longer uses ViewBinding." ;;
      print EmptyString
  end.

(** ** What the theorems about the installer speak of *)

Fixpoint is_prefix (k' k : Key) : bool :=
  match k', k with
  | [], _ => true
  | x :: k1, y :: k2 => String.eqb x y && is_prefix k1 k2
  | _ :: _, [] => false
  end.

(** [k'] is [done] followed by a non-empty prefix of [rest]. *)
Definition between (done rest k' : Key) : Prop :=
  exists r1 r2, r1 <> [] /\ rest = (r1 ++ r2)%list /\ k' = (done ++ r1)%list.

(** No file stands where a directory of [rest] below [done] has to be. *)
Fixpoint passable (f : FS) (done rest : Key) : bool :=
  match rest with
  | [] => true
  | c :: rest' =>
      match lookup f (done ++ [c])%list with
      | Some (File _ _) => false
      | _ => passable f (done ++ [c])%list rest'
      end
  end.

(** A file can be written at [k]: no file is in the way of its
    directories and no directory is in its place. *)
Definition clear (f : FS) (k : Key) : bool :=
  passable f [] (removelast k) &&
  match lookup f k with
  | Some (Dir _) => false
  | _ => true
  end.


(** Neither path lies below the other. *)
Definition apart (p q : string) : bool :=
  negb (is_prefix (key p) (key q)) && negb (is_prefix (key q) (key p)).





(** A run on [h] ends in an exception, in a host satisfying [Q]. *)
Definition raises {A} (m : Py A) (h : Host) (Q : Host -> Prop) : Prop :=
  exists e h', m h = (Raised e, h') /\ Q h'.


Definition listed (p : string) : bool := existsb (String.eqb p) written.


(** A host with nothing on it, and the usual umask. *)
Definition empty_host : Host :=
  {| fs := fun _ => None; umask := 18; stdout := [] |}.

End Installer.

(** * Theorems *)

(** ** Commands that do nothing *)

(** C4. A Start command delivered while isRecording is true changes
    nothing: the world after it, outputFile and trace included, is the
    world before it, and the command returns START_STICKY. *)
Theorem C4_start_while_recording_is_noop :
  forall env src w,
    isRecording w = true ->
    onStartCommand env src
      (Some {| action := Some (ACTION_START_RECORDING src) |}) w
    = (Ret START_STICKY, w).
Proof.
  intros env src w H.
  unfold onStartCommand, action_of, is_case; cbn [action].
  rewrite String.eqb_refl.
  unfold bind, get. rewrite H. reflexivity.
Qed.

Lemma C4_witness :
  let w := exec no_faults setup_project_2_py
             [Start setup_project_2_py] (created no_faults) in
  isRecording w = true /\
  onStartCommand no_faults setup_project_2_py
    (Some {| action := Some (ACTION_START_RECORDING setup_project_2_py) |}) w
  = (Ret START_STICKY, w).
Proof.
  split; [reflexivity | apply C4_start_while_recording_is_noop; reflexivity].
Defined.

(** C10. A command whose action is neither Start nor Stop, a null
    intent included, leaves the whole world unchanged (fields, timer,
    trace) and returns START_STICKY. *)
Theorem C10_other_command_is_noop :
  forall env src intent w,
    action_of intent <> Some (ACTION_START_RECORDING src) ->
    action_of intent <> Some (ACTION_STOP_RECORDING src) ->
    onStartCommand env src intent w = (Ret START_STICKY, w).
Proof.
  intros env src intent w H1 H2.
  unfold onStartCommand, is_case.
  destruct (action_of intent) as [x|]; [|reflexivity].
  destruct (String.eqb_spec x (ACTION_START_RECORDING src)) as [->|_];
    [congruence|].
  destruct (String.eqb_spec x (ACTION_STOP_RECORDING src)) as [->|_];
    [congruence|].
  reflexivity.
Qed.

Lemma C10_witness :
  action_of None <> Some (ACTION_START_RECORDING setup_project_2_py) /\
  action_of None <> Some (ACTION_STOP_RECORDING setup_project_2_py) /\
  onStartCommand stop_throws setup_project_2_py None (created stop_throws)
  = (Ret START_STICKY, created stop_throws).
Proof.
  assert (H1 : action_of None <> Some (ACTION_START_RECORDING setup_project_2_py))
    by discriminate.
  assert (H2 : action_of None <> Some (ACTION_STOP_RECORDING setup_project_2_py))
    by discriminate.
  split; [exact H1 | split; [exact H2 |]].
  exact (C10_other_command_is_noop stop_throws setup_project_2_py None
           (created stop_throws) H1 H2).
Defined.

(** C6. Stop in the Idle state calls nothing on the platform and changes
    no field: it only logs "Recording stopped" and asks the host to stop
    the service, and the state is Idle again. *)
Theorem C6_stop_when_idle :
  forall env src w,
    Idle w ->
    let r := onStartCommand env src
               (Some {| action := Some (ACTION_STOP_RECORDING src) |}) w in
    r = (Ret START_STICKY,
         log EvStopSelf (log (EvLogD TAG "Recording stopped") w))
    /\ Idle (snd r).
Proof.
  intros env src w (Hm & Hr & Hb).
  assert (E : onStartCommand env src
               (Some {| action := Some (ACTION_STOP_RECORDING src) |}) w
              = (Ret START_STICKY,
                 log EvStopSelf (log (EvLogD TAG "Recording stopped") w))).
  { unfold onStartCommand, action_of, is_case; cbn [action].
    destruct src; cbn [ACTION_START_RECORDING ACTION_STOP_RECORDING];
      destruct w; cbn in Hm, Hr, Hb; subst; reflexivity. }
  cbv zeta. rewrite E. split; [reflexivity|].
  unfold Idle; cbn. auto.
Qed.

Lemma C6_witness :
  Idle (created no_faults) /\
  let r := onStartCommand no_faults setup_project_2_py
             (Some {| action := Some (ACTION_STOP_RECORDING setup_project_2_py) |})
             (created no_faults) in
  r = (Ret START_STICKY,
       log EvStopSelf (log (EvLogD TAG "Recording stopped") (created no_faults)))
  /\ Idle (snd r).
Proof.
  assert (H : Idle (created no_faults)) by (repeat split).
  split; [exact H|].
  exact (C6_stop_when_idle no_faults setup_project_2_py (created no_faults) H).
Defined.

(** ** Rules for triples *)

Section Rules.
Context {A B : Type}.

Lemma triple_ret (P : World -> Prop) (a : A) N X :
  (forall w, P w -> N a w) -> triple P (ret a) N X.
Proof. intros H w Hw. cbn. auto. Qed.

Lemma triple_raise (P : World -> Prop) e (N : A -> World -> Prop) X :
  (forall w, P w -> X w) -> triple P (raise e) N X.
Proof. intros H w Hw. cbn. auto. Qed.

Lemma triple_bind P (m : M A) (k : A -> M B) R N X :
  triple P m R X ->
  (forall a, triple (R a) (k a) N X) ->
  triple P (bind m k) N X.
Proof.
  intros Hm Hk w Hw. unfold bind.
  specialize (Hm w Hw). destruct (m w) as [[a|e] w']; [|exact Hm].
  exact (Hk a w' Hm).
Qed.

Lemma triple_try P (m : M A) h N X X' :
  triple P m N X' ->
  (forall e, triple X' (h e) N X) ->
  triple P (try_catch m h) N X.
Proof.
  intros Hm Hh w Hw. unfold try_catch.
  specialize (Hm w Hw). destruct (m w) as [[a|e] w']; [exact Hm|].
  exact (Hh e w' Hm).
Qed.

Lemma triple_weaken (P P' : World -> Prop) (m : M A)
    (N N' : A -> World -> Prop) (X X' : World -> Prop) :
  triple P' m N' X' ->
  (forall w, P w -> P' w) ->
  (forall a w, N' a w -> N a w) ->
  (forall w, X' w -> X w) ->
  triple P m N X.
Proof.
  intros Hm HP HN HX w Hw. specialize (Hm w (HP w Hw)).
  destruct (m w) as [[a|e] w']; auto.
Qed.

Lemma triple_get P (f : World -> A) N X :
  (forall w, P w -> N (f w) w) -> triple P (get f) N X.
Proof. intros H w Hw. cbn. auto. Qed.

End Rules.

Lemma triple_modify P (f : World -> World) N X :
  (forall w, P w -> N tt (f w)) -> triple P (modify f) N X.
Proof. intros H w Hw. cbn. auto. Qed.

Lemma triple_emit P e N X :
  (forall w, P w -> N tt (log e w)) -> triple P (emit e) N X.
Proof. intros H. apply triple_modify. exact H. Qed.

Lemma keeps_bind {A B} P (m : M A) (k : A -> M B) :
  keeps P m -> (forall a, keeps P (k a)) -> keeps P (bind m k).
Proof. intros Hm Hk. eapply triple_bind; [exact Hm | exact Hk]. Qed.

Lemma keeps_try {A} P (m : M A) h :
  keeps P m -> (forall e, keeps P (h e)) -> keeps P (try_catch m h).
Proof. intros Hm Hh. eapply triple_try; [exact Hm | exact Hh]. Qed.

Lemma keeps_ret {A} P (a : A) : keeps P (ret a).
Proof. apply triple_ret. auto. Qed.

Lemma keeps_raise {A} P e : keeps P (@raise A e).
Proof. apply triple_raise. auto. Qed.

Lemma keeps_get {A} P (f : World -> A) : keeps P (get f).
Proof. apply triple_get. auto. Qed.

Lemma keeps_exists P f : keeps P (exists_ f).
Proof. apply keeps_get. Qed.

Lemma keeps_modify P (f : World -> World) :
  (forall w, P w -> P (f w)) -> keeps P (modify f).
Proof. intros H. apply triple_modify. exact H. Qed.

Section Insensitive.
Variable env : Env.
Variable P : World -> Prop.
Hypothesis HP : insensitive P.

Lemma keeps_emit e : is_timer_event e = false -> keeps P (emit e).
Proof. intros He. apply triple_emit. intros w Hw. now apply (HP w Hw). Qed.

Lemma keeps_platform c : keeps P (platform env c).
Proof.
  intros w Hw. unfold platform.
  destruct (throws env (ncalls w) c); apply (HP w Hw).
Qed.

Lemma keeps_new_object : keeps P new_object.
Proof. intros w Hw. cbn. apply (HP w Hw). Qed.

Lemma keeps_set_mediaRecorder v : keeps P (modify (set_mediaRecorder v)).
Proof. apply triple_modify. intros w Hw. apply (HP w Hw). Qed.

Lemma keeps_set_toneGenerator v : keeps P (modify (set_toneGenerator v)).
Proof. apply triple_modify. intros w Hw. apply (HP w Hw). Qed.

Lemma keeps_on_recorder h c : keeps P (on_recorder env h c).
Proof.
  unfold on_recorder. apply keeps_try.
  - apply keeps_bind; [apply keeps_platform | intros; now apply keeps_emit].
  - intros e.
    apply keeps_bind; [now apply keeps_emit | intros; apply keeps_raise].
Qed.

Lemma keeps_on_recorder_all h cs : keeps P (on_recorder_all env h cs).
Proof.
  induction cs as [|c cs IH]; cbn [on_recorder_all].
  - apply keeps_ret.
  - apply keeps_bind; [apply keeps_on_recorder | intros; exact IH].
Qed.

Lemma keeps_newMediaRecorder b : keeps P (newMediaRecorder env b).
Proof.
  unfold newMediaRecorder.
  apply keeps_bind; [apply keeps_platform | intros _].
  apply keeps_bind; [apply keeps_new_object | intros h].
  apply keeps_bind; [now apply keeps_emit | intros _; apply keeps_ret].
Qed.

Lemma keeps_startForeground id text : keeps P (startForeground env id text).
Proof.
  unfold startForeground.
  apply keeps_bind; [apply keeps_platform | intros; now apply keeps_emit].
Qed.

Lemma keeps_mkdirs f : keeps P (mkdirs f).
Proof.
  unfold mkdirs. apply keeps_bind; [now apply keeps_emit | intros _].
  apply triple_modify. intros w Hw. apply (HP w Hw).
Qed.

Lemma keeps_format_now pat : keeps P (format_now env pat).
Proof.
  unfold format_now. apply keeps_bind; [apply keeps_get | intros now].
  destruct (JavaTime.SimpleDateFormat pat now);
    [apply keeps_ret | apply keeps_raise].
Qed.

Lemma keeps_string_literal sc body : keeps P (string_literal sc body).
Proof.
  unfold string_literal.
  destruct (Kotlin.eval sc body); [apply keeps_ret | apply keeps_raise].
Qed.

End Insensitive.

Create HintDb keeps.

(** Peel one [bind] and close the first computation from the hint base. *)
Ltac keep_step :=
  first
    [ apply keeps_bind; [solve [auto with keeps] | intro]
    | solve [auto with keeps] ].

Lemma insensitive_quiet_timer : insensitive quiet_timer.
Proof. intros w Hw. repeat split; apply Hw. Qed.

Lemma insensitive_timer_inv : insensitive timer_inv.
Proof. intros w Hw. repeat split; apply Hw. Qed.

Lemma quiet_timer_inv w : quiet_timer w -> timer_inv w.
Proof.
  intros [Hb Hq]. split; [auto|].
  intros m Hm. rewrite Hq in Hm. destruct Hm.
Qed.

Lemma timer_inv_quiet w :
  timer_inv w -> isRecording w = false -> quiet_timer w.
Proof.
  intros [H1 H2] Hr. split; [auto|]. unfold posts_owned in H2.
  destruct (queue w) as [|m q] eqn:E; [reflexivity|].
  specialize (H2 m (or_introl eq_refl)). rewrite (H1 Hr) in H2. discriminate.
Qed.

#[local] Hint Resolve insensitive_quiet_timer insensitive_timer_inv : keeps.
#[local] Hint Extern 1 (is_timer_event _ = false) => reflexivity : keeps.
#[local] Hint Extern 1 (keeps quiet_timer (modify (set_outputFile _))) =>
  (apply keeps_modify; intros ? H; exact H) : keeps.

Lemma keeps_q_weak {A} (m : M A) :
  keeps quiet_timer m ->
  triple quiet_timer m (fun _ => quiet_timer) timer_inv.
Proof.
  intros H. eapply triple_weaken; [exact H | auto | auto |].
  apply quiet_timer_inv.
Qed.

(** Peel one [bind] whose first computation keeps the timer quiet. *)
Ltac q_step x :=
  eapply triple_bind;
    [apply keeps_q_weak; solve [auto with keeps] | intros x; cbv beta].

#[local] Hint Resolve keeps_ret keeps_raise keeps_get keeps_exists keeps_emit
  keeps_platform keeps_new_object keeps_set_mediaRecorder
  keeps_set_toneGenerator keeps_on_recorder
  keeps_on_recorder_all keeps_newMediaRecorder keeps_startForeground
  keeps_mkdirs keeps_format_now keeps_string_literal : keeps.


(** ** The beep timer *)

Section Timer.
Variable env : Env.
Variable src : SourceFile.

Lemma In_enqueue m q x : In x (enqueue m q) -> x = m \/ In x q.
Proof.
  induction q as [|m' q IH]; cbn [enqueue].
  - intros [<-|[]]. auto.
  - destruct (fst m <? fst m')%Z.
    + intros [<-|H]; auto.
    + intros [<-|H]; [right; left; reflexivity|].
      destruct (IH H); [auto | right; right; assumption].
Qed.

Lemma filter_none {T} (f : T -> bool) l :
  (forall x, In x l -> f x = false) -> filter f l = [].
Proof.
  induction l as [|x l IH]; cbn; [reflexivity|].
  intros H. rewrite (H x (or_introl eq_refl)). apply IH.
  intros y Hy. apply H. now right.
Qed.

(** stopBeepTimer returns, and leaves no runnable remembered or posted. *)
Lemma stopBeepTimer_quiet :
  triple posts_owned stopBeepTimer (fun _ => quiet_timer) (fun _ => False).
Proof.
  intros w H2. unfold posts_owned in H2. unfold stopBeepTimer, bind, get.
  destruct (beepRunnable w) as [r|] eqn:E; cbn.
  - split; [reflexivity|]. cbn.
    apply filter_none.
    intros [t r'] Hm. specialize (H2 _ Hm). cbn in H2 |- *.
    injection H2 as ->. now rewrite Nat.eqb_refl.
  - split; [reflexivity|]. cbn.
    destruct (queue w) as [|m q]; [reflexivity|].
    specialize (H2 m (or_introl eq_refl)). discriminate.
Qed.

Lemma keeps_quiet_set_isRecording v :
  keeps quiet_timer (modify (set_isRecording v)).
Proof. apply triple_modify. intros w Hw. exact Hw. Qed.

(** stopRecording always returns, with the timer quiet. *)
Lemma stopRecording_quiet :
  triple timer_inv (stopRecording env) (fun _ => quiet_timer) (fun _ => False).
Proof.
  unfold stopRecording.
  eapply triple_try with (X' := quiet_timer).
  - eapply triple_bind with (R := fun _ => quiet_timer).
    + eapply triple_weaken;
        [apply stopBeepTimer_quiet | intros w Hw; apply Hw | 
        | intros ? []].
      intros a w Hw. exact Hw.
    + intros _. keep_step.
      apply keeps_bind; [destruct a; auto with keeps | intros _].
      apply keeps_bind; [auto with keeps | intros _].
      apply keeps_bind; [apply keeps_quiet_set_isRecording | intros _].
      unfold Log_d. auto with keeps.
  - intros e. unfold Log_e. apply triple_emit.
    intros w Hw. now apply (insensitive_quiet_timer w Hw).
Qed.

Lemma startBeepTimer_inv :
  triple (fun w => quiet_timer w /\ isRecording w = true)
    startBeepTimer (fun _ => timer_inv) timer_inv.
Proof.
  intros w [[Hb Hq] Hr]. unfold startBeepTimer, bind, new_object, modify, get.
  cbn. split; cbn.
  - congruence.
  - rewrite Hq. cbn. intros m [<-|[]]. reflexivity.
Qed.

(** startRecording, entered with the timer quiet, always returns and
    keeps the timer invariant. *)
Lemma startRecording_inv :
  triple quiet_timer (startRecording env src)
    (fun _ => timer_inv) (fun _ => False).
Proof.
  unfold startRecording.
  eapply triple_try with (X' := timer_inv).
  - q_step timestamp. q_step present.
    eapply triple_bind;
      [apply keeps_q_weak; destruct (negb present); auto with keeps
      | intros ?; cbv beta].
    q_step fname. q_step u. q_step h. q_step u'. q_step m.
    eapply triple_bind;
      [apply keeps_q_weak; destruct m; [keep_step|]; auto with keeps
      | intros ?; cbv beta].
    eapply triple_bind with
      (R := fun _ w => quiet_timer w /\ isRecording w = true).
    { apply triple_modify. intros w Hw. split; [exact Hw | reflexivity]. }
    intros ?; cbv beta.
    eapply triple_bind; [apply startBeepTimer_inv | intros ?; cbv beta].
    keep_step. unfold Log_d. auto with keeps.
  - intros e. eapply triple_bind with (R := fun _ => timer_inv).
    + unfold Log_e. apply triple_emit.
      intros w Hw. now apply (insensitive_timer_inv w Hw).
    + intros _. eapply triple_weaken;
        [apply stopRecording_quiet | auto | | intros ? []].
      intros a w Hw. apply quiet_timer_inv, Hw.
Qed.


Lemma onStartCommand_stop :
  onStartCommand env src
    (Some {| action := Some (ACTION_STOP_RECORDING src) |})
  = ((stopRecording env ;; stopSelf) ;; ret START_STICKY).
Proof. destruct src; reflexivity. Qed.


Lemma onStartCommand_inv intent :
  triple timer_inv (onStartCommand env src intent)
    (fun _ => timer_inv) (fun _ => False).
Proof.
  unfold onStartCommand.
  eapply triple_bind with (R := fun _ => timer_inv);
    [| intros _; apply triple_ret; auto].
  destruct (is_case _ _).
  - eapply triple_bind with
      (R := fun rec w => timer_inv w /\ rec = isRecording w).
    + apply triple_get. auto.
    + intros [|]; cbn [negb].
      * apply triple_ret. tauto.
      * eapply triple_weaken; [apply startRecording_inv | | auto | auto].
        intros w [Hw Hr]. apply timer_inv_quiet; auto.
  - destruct (is_case _ _); [|apply triple_ret; auto].
    eapply triple_bind with (R := fun _ => quiet_timer).
    + apply stopRecording_quiet.
    + intros _. unfold stopSelf. apply triple_emit.
      intros w Hw. apply quiet_timer_inv.
      now apply (insensitive_quiet_timer w Hw).
Qed.

(** After a Stop command no runnable is remembered and none is posted. *)
Lemma Stop_quiet w :
  timer_inv w -> quiet_timer (step env src (Stop src) w).
Proof.
  intros Hw. unfold Stop. cbn [step]. rewrite onStartCommand_stop.
  assert (H : triple timer_inv
                ((stopRecording env ;; stopSelf) ;; ret START_STICKY)
                (fun _ => quiet_timer) (fun _ => False)).
  { eapply triple_bind with (R := fun _ => quiet_timer);
      [| intros _; apply triple_ret; auto].
    eapply triple_bind with (R := fun _ => quiet_timer);
      [apply stopRecording_quiet|].
    intros _. unfold stopSelf. apply triple_emit.
    intros x Hx. now apply (insensitive_quiet_timer x Hx). }
  specialize (H w Hw).
  destruct (((stopRecording env ;; stopSelf) ;; ret START_STICKY) w)
    as [[r|e] w']; [exact H | destruct H].
Qed.

Lemma run_inv r w :
  beepRunnable w = Some r ->
  (forall m, In m (queue w) -> snd m = r) ->
  (isRecording w = false -> beepRunnable w = None) ->
  timer_inv (snd (run r w)).
Proof.
  intros Hb Hq Hr. unfold run, playBeep, postDelayed, bind, get, emit, modify.
  destruct (toneGenerator w); cbn; (split; cbn; [exact Hr|]);
    intros m Hm; cbn in Hm |- *; apply In_enqueue in Hm; rewrite Hb;
    (destruct Hm as [->|Hm]; [reflexivity | now rewrite (Hq m Hm)]).
Qed.

Lemma step_inv s w : timer_inv w -> timer_inv (step env src s w).
Proof.
  intros Hw. destruct s as [intent|ms| |]; cbn [step].
  - pose proof (onStartCommand_inv intent w Hw) as H.
    destruct (onStartCommand env src intent w) as [[r|e] w'];
      [exact H | destruct H].
  - exact Hw.
  - destruct (queue w) as [|[due r] q] eqn:E; [exact Hw|].
    destruct (due <=? clock w)%Z; [|exact Hw].
    destruct Hw as [H1 H2]. unfold posts_owned in H2.
    assert (Hb : beepRunnable w = Some r)
      by (apply (H2 (due, r)); rewrite E; now left).
    apply run_inv; [exact Hb | | exact H1].
    intros m Hm. rewrite E in H2.
    specialize (H2 m (or_intror Hm)). rewrite Hb in H2.
    injection H2 as H2. now symmetry.
  - destruct (queue w) as [|[due r] q] eqn:E; [exact Hw|].
    destruct Hw as [H1 H2]. unfold posts_owned in H2.
    assert (Hb : beepRunnable w = Some r)
      by (apply (H2 (due, r)); rewrite E; now left).
    apply run_inv; [exact Hb | | exact H1].
    intros m Hm. rewrite E in H2.
    specialize (H2 m (or_intror Hm)). rewrite Hb in H2.
    injection H2 as H2. now symmetry.
Qed.

Lemma exec_inv ss w : timer_inv w -> timer_inv (exec env src ss w).
Proof.
  revert w. induction ss as [|s ss IH]; intros w Hw; cbn; [exact Hw|].
  apply IH, step_inv, Hw.
Qed.

Lemma created_inv : timer_inv (created env).
Proof.
  assert (H : keeps timer_inv (onCreate env)).
  { unfold onCreate, createNotificationChannel.
    apply keeps_bind;
      [destruct (VERSION_CODES_O <=? SDK_INT env)%Z; auto with keeps
      | intros _].
    do 2 keep_step. auto with keeps. }
  assert (H0 : timer_inv new_service) by (split; [reflexivity | intros ? []]).
  specialize (H new_service H0). unfold created.
  destruct (onCreate env new_service) as [[r|e] w']; exact H.
Qed.

(** With the timer quiet the looper has nothing to run. *)
Lemma looper_quiet l w :
  quiet_timer w ->
  quiet_timer (step env src (looper l) w) /\
  trace (step env src (looper l) w) = trace w.
Proof.
  intros [Hb Hq]. destruct l; cbn [looper step].
  - split; [split; assumption | reflexivity].
  - rewrite Hq. split; [split; assumption | reflexivity].
  - rewrite Hq. split; [split; assumption | reflexivity].
Qed.

Lemma loopers_quiet ls w :
  quiet_timer w ->
  quiet_timer (exec env src (map looper ls) w) /\
  trace (exec env src (map looper ls) w) = trace w.
Proof.
  revert w. induction ls as [|l ls IH]; intros w Hw; [cbn; auto|].
  change (exec env src (map looper (l :: ls)) w)
    with (exec env src (map looper ls) (step env src (looper l) w)).
  destruct (looper_quiet l w Hw) as [Hq Ht].
  destruct (IH _ Hq) as [Hq' Ht']. split; [exact Hq' | now rewrite Ht'].
Qed.

Lemma insensitive_trace_ext t0 : insensitive (trace_ext t0).
Proof.
  intros w (rest & E & H).
  refine (conj _ (conj _ (conj _ (conj _ (conj _ _)))));
    try (intros; exists rest; split; [exact E | exact H]).
  intros e He. exists (rest ++ [e])%list. split.
  - cbn. rewrite E. now rewrite app_assoc.
  - intros x Hx. apply in_app_or in Hx.
    destruct Hx as [Hx|[<-|[]]]; auto.
Qed.

(** stopRecording first takes the runnable off the looper; whatever it
    logs or calls afterwards is no timer event. *)
Lemma stopRecording_trace w0 :
  triple (eq w0) (stopRecording env)
    (fun _ => trace_ext (trace w0 ++ cancellation w0)) (fun _ => False).
Proof.
  pose proof (insensitive_trace_ext (trace w0 ++ cancellation w0)) as HT.
  set (T := trace_ext (trace w0 ++ cancellation w0)) in *.
  unfold stopRecording.
  eapply triple_try with (X' := T).
  - eapply triple_bind with (R := fun _ => T).
    + intros w <-. unfold stopBeepTimer, bind, get, T, cancellation.
      destruct (beepRunnable w0); unfold trace_ext; cbn; exists [];
        (split; [rewrite !app_nil_r; reflexivity | intros ? []]).
    + intros _. keep_step.
      apply keeps_bind; [destruct a; auto with keeps | intros _].
      apply keeps_bind; [auto with keeps | intros _].
      apply keeps_bind;
        [apply triple_modify; intros w Hw; exact Hw | intros _].
      unfold Log_d. auto with keeps.
  - intros e. unfold Log_e. apply triple_emit.
    intros w Hw. now apply (HT w Hw).
Qed.

Lemma Stop_trace w :
  trace_ext (trace w ++ cancellation w) (step env src (Stop src) w).
Proof.
  pose proof (insensitive_trace_ext (trace w ++ cancellation w)) as HT.
  unfold Stop. cbn [step]. rewrite onStartCommand_stop.
  assert (H : triple (eq w)
                ((stopRecording env ;; stopSelf) ;; ret START_STICKY)
                (fun _ => trace_ext (trace w ++ cancellation w))
                (fun _ => False)).
  { eapply triple_bind with
      (R := fun _ => trace_ext (trace w ++ cancellation w));
      [| intros _; apply triple_ret; auto].
    eapply triple_bind; [apply stopRecording_trace|].
    intros ?; cbv beta. unfold stopSelf. apply triple_emit.
    intros x Hx. now apply (HT x Hx). }
  specialize (H w eq_refl).
  destruct (((stopRecording env ;; stopSelf) ;; ret START_STICKY) w)
    as [[r|e] w']; [exact H | destruct H].
Qed.

Lemma tones_app a b : tones (a ++ b) = (tones a ++ tones b)%list.
Proof.
  induction a as [|e a IH]; [reflexivity|].
  destruct e; cbn; rewrite ?IH; reflexivity.
Qed.

(** One ideal tick: the post due at [d] runs at [d], beeps, and posts
    itself for [d + BEEP_INTERVAL_MS]. *)
Lemma Next_tick w d r t :
  queue w = [(d, r)] -> toneGenerator w = Some t -> (clock w <= d)%Z ->
  let w' := step env src Next w in
  queue w' = [((d + BEEP_INTERVAL_MS)%Z, r)] /\ clock w' = d /\
  toneGenerator w' = Some t /\ beepRunnable w' = beepRunnable w /\
  tones (trace w') = (tones (trace w) ++ [d])%list.
Proof.
  intros Hq Ht Hc. cbn [step]. rewrite Hq.
  unfold run, playBeep, postDelayed, bind, get, emit, modify. cbn.
  rewrite Ht. cbn. rewrite !tones_app. cbn.
  rewrite (Z.max_r _ _ Hc), app_nil_r. auto.
Qed.

Lemma Next_ticks n : forall w d r t,
  queue w = [(d, r)] -> toneGenerator w = Some t -> (clock w <= d)%Z ->
  let w' := exec env src (repeat Next n) w in
  (exists d', queue w' = [(d', r)]) /\ beepRunnable w' = beepRunnable w /\
  tones (trace w') =
    (tones (trace w) ++
     map (fun k => (d + Z.of_nat k * BEEP_INTERVAL_MS)%Z) (seq 0 n))%list.
Proof.
  induction n as [|n IH]; intros w d r t Hq Ht Hc.
  - cbn. rewrite app_nil_r. eauto.
  - change (exec env src (repeat Next (S n)) w)
      with (exec env src (repeat Next n) (step env src Next w)).
    destruct (Next_tick w d r t Hq Ht Hc) as (Hq' & Hc' & Ht' & Hb' & Hs').
    assert (Hle : (clock (step env src Next w) <= d + BEEP_INTERVAL_MS)%Z)
      by (rewrite Hc'; unfold BEEP_INTERVAL_MS; lia).
    destruct (IH _ _ _ _ Hq' Ht' Hle) as (Hq2 & Hb2 & Hs2).
    cbv zeta. split; [exact Hq2 | split; [congruence|]].
    rewrite Hs2, Hs', <- app_assoc. f_equal.
    cbn [seq map app]. f_equal; [cbn; lia|].
    rewrite <- seq_shift, map_map. apply map_ext.
    intros k. rewrite Nat2Z.inj_succ. unfold BEEP_INTERVAL_MS. lia.
Qed.

(** The runnable, run at any time with nothing else posted: it beeps now
    and posts itself one interval ahead. *)
Lemma run_tick r w t :
  queue w = [] -> toneGenerator w = Some t ->
  let w' := snd (run r w) in
  queue w' = [((clock w + BEEP_INTERVAL_MS)%Z, r)] /\ clock w' = clock w /\
  toneGenerator w' = Some t /\
  tones (trace w') = (tones (trace w) ++ [clock w])%list.
Proof.
  intros Hq Ht.
  unfold run, playBeep, postDelayed, bind, get, emit, modify. cbn.
  rewrite Ht. cbn. rewrite Hq, !tones_app. cbn.
  rewrite app_nil_r. auto.
Qed.

(** However the looper is scheduled, late or on time, the beeps it
    produces keep their distance: none before the post falls due, and
    each at least one interval after the one before. *)
Lemma any_schedule_spaced ls : forall w d r t L,
  queue w = [(d, r)] -> toneGenerator w = Some t ->
  (L + BEEP_INTERVAL_MS <= d)%Z ->
  exists ts,
    tones (trace (exec env src (map looper ls) w))
      = (tones (trace w) ++ ts)%list /\
    spaced L ts.
Proof.
  induction ls as [|l ls IH]; intros w d r t L Hq Ht Hd.
  - exists []. cbn. now rewrite app_nil_r.
  - change (exec env src (map looper (l :: ls)) w)
      with (exec env src (map looper ls) (step env src (looper l) w)).
    destruct l as [ms| |]; cbn [looper step].
    + destruct (IH (set_clock (clock w + Z.of_nat ms) w) d r t L Hq Ht Hd)
        as (ts & E & Hsp).
      exists ts. split; [exact E | exact Hsp].
    + rewrite Hq. destruct (Z.leb_spec d (clock w)) as [Hle|Hlt];
        [|apply (IH _ d r t L); auto].
      destruct (run_tick r (set_queue [] w) t eq_refl Ht)
        as (Hq' & Hc' & Ht' & Hs').
      cbn [clock set_queue] in Hq', Hc', Hs'.
      destruct (IH _ _ r t (clock w) Hq' Ht' (Z.le_refl _)) as (ts & E & Hsp).
      exists (clock w :: ts). split.
      * rewrite E, Hs'. cbn [trace set_queue]. now rewrite <- app_assoc.
      * cbn [spaced]. split; [lia | exact Hsp].
    + rewrite Hq.
      destruct (run_tick r (set_queue [] (set_clock (Z.max (clock w) d) w)) t
                  eq_refl Ht) as (Hq' & Hc' & Ht' & Hs').
      cbn [clock set_queue set_clock] in Hq', Hc', Hs'.
      destruct (IH _ _ r t (Z.max (clock w) d) Hq' Ht' (Z.le_refl _))
        as (ts & E & Hsp).
      exists (Z.max (clock w) d :: ts). split.
      * rewrite E, Hs'. cbn [trace set_queue set_clock].
        now rewrite <- app_assoc.
      * cbn [spaced]. split; [lia | exact Hsp].
Qed.

End Timer.

(** C7. After a Stop command, delivered in any state the service can
    reach, no runnable is remembered and none is posted, so the looper
    fires no further beep however long it runs; and within the command
    the removal of the runnable comes first in the trace, before any
    call on the MediaRecorder. *)
Theorem C7_no_tick_after_stop :
  forall env src (before : list Step) (after : list Looper),
    let w := exec env src before (created env) in
    let w' := step env src (Stop src) w in
    beepRunnable w' = None /\ queue w' = [] /\
    tones (trace (exec env src (map looper after) w')) = tones (trace w') /\
    trace_ext (trace w ++ cancellation w) w'.
Proof.
  intros env src before after w w'.
  assert (Hw : timer_inv w) by apply exec_inv, created_inv.
  pose proof (Stop_quiet env src w Hw) as Hq. fold w' in Hq.
  destruct (loopers_quiet env src after w' Hq) as [_ Ht].
  destruct Hq as [Hb Hq].
  repeat split; [exact Hb | exact Hq | now rewrite Ht |].
  apply Stop_trace.
Qed.

Lemma stopBeepTimer_tones w :
  tones (trace (snd (stopBeepTimer w))) = tones (trace w).
Proof.
  unfold stopBeepTimer, bind, get.
  destruct (beepRunnable w); cbn; [|reflexivity].
  rewrite tones_app. cbn. now rewrite app_nil_r.
Qed.

(** C8. startBeepTimer posts the runnable one interval ahead and nothing
    is due before that: a looper that looks earlier runs nothing.  A
    looper that runs each post when it falls due beeps at one, two, ...,
    n intervals after the start; once stopBeepTimer has run, no further
    beep is produced; and under any looper schedule at all, the first
    beep comes no earlier than one interval after the start and each
    later one no earlier than one interval after the one before. *)
Theorem C8_beep_schedule :
  forall env src w n,
    queue w = [] -> toneGenerator w <> None ->
    let w1 := snd (startBeepTimer w) in
    let wn := exec env src (repeat Next n) w1 in
    (forall ms, (Z.of_nat ms < BEEP_INTERVAL_MS)%Z ->
       step env src Deliver (step env src (Elapse ms) w1)
       = step env src (Elapse ms) w1) /\
    tones (trace wn) =
      (tones (trace w) ++
       map (fun k => (clock w + Z.of_nat k * BEEP_INTERVAL_MS)%Z) (seq 1 n))%list
    /\
    (forall after,
       tones (trace (exec env src (map looper after) (snd (stopBeepTimer wn))))
       = tones (trace wn)) /\
    (forall ls, exists ts,
       tones (trace (exec env src (map looper ls) w1))
         = (tones (trace w) ++ ts)%list /\
       spaced (clock w) ts).
Proof.
  intros env src w n Hq Ht w1 wn.
  destruct (toneGenerator w) as [t|] eqn:Et; [clear Ht | now destruct Ht].
  assert (Hq1 : queue w1 = [((clock w + BEEP_INTERVAL_MS)%Z, fresh w)]).
  { unfold w1, startBeepTimer, postDelayed, bind, new_object, modify, get, emit.
    cbn. now rewrite Hq. }
  assert (Hc1 : clock w1 = clock w) by reflexivity.
  assert (Ht1 : toneGenerator w1 = Some t) by exact Et.
  assert (Hb1 : beepRunnable w1 = Some (fresh w)) by reflexivity.
  assert (Hs1 : tones (trace w1) = tones (trace w)).
  { unfold w1, startBeepTimer, postDelayed, bind, new_object, modify, get, emit.
    cbn. rewrite tones_app. cbn. now rewrite app_nil_r. }
  assert (Hle : (clock w1 <= clock w + BEEP_INTERVAL_MS)%Z)
    by (rewrite Hc1; unfold BEEP_INTERVAL_MS; lia).
  destruct (Next_ticks env src n w1 _ _ _ Hq1 Ht1 Hle) as ([d' Hqn] & Hbn & Hsn).
  fold wn in Hqn, Hbn, Hsn.
  split; [|split; [|split]].
  - intros ms Hms. cbn [step set_clock queue clock]. rewrite Hq1.
    destruct (Z.leb_spec (clock w + BEEP_INTERVAL_MS) (clock w1 + Z.of_nat ms));
      [rewrite Hc1 in *; lia | reflexivity].
  - rewrite Hsn, Hs1. f_equal.
    rewrite <- seq_shift, map_map. apply map_ext.
    intros k. rewrite Nat2Z.inj_succ. unfold BEEP_INTERVAL_MS. lia.
  - intros after.
    assert (Ho : posts_owned wn).
    { intros m Hm. rewrite Hqn in Hm. destruct Hm as [<-|[]].
      rewrite Hbn. exact Hb1. }
    pose proof (stopBeepTimer_quiet wn Ho) as Hquiet.
    destruct (stopBeepTimer wn) as [[u|e] w'] eqn:E; [|destruct Hquiet].
    destruct (loopers_quiet env src after w' Hquiet) as [_ Htr].
    cbn [snd]. rewrite Htr.
    change w' with (snd (Ret u, w')). rewrite <- E.
    apply stopBeepTimer_tones.
  - intros ls.
    destruct (any_schedule_spaced env src ls w1 _ _ _ (clock w) Hq1 Ht1
                (Z.le_refl _)) as (ts & E & Hsp).
    exists ts. split; [now rewrite E, Hs1 | exact Hsp].
Qed.

Lemma C8_witness :
  queue (created no_faults) = [] /\
  toneGenerator (created no_faults) <> None /\
  tones (trace (exec no_faults setup_project_2_py (repeat Next 3)
                  (snd (startBeepTimer (created no_faults)))))
  = [30000; 60000; 90000]%Z.
Proof.
  assert (H1 : queue (created no_faults) = []) by reflexivity.
  assert (H2 : toneGenerator (created no_faults) <> None) by discriminate.
  split; [exact H1 | split; [exact H2|]].
  exact (proj1 (proj2
    (C8_beep_schedule no_faults setup_project_2_py (created no_faults) 3 H1 H2))).
Defined.

(** In every state the service can reach, not recording means that no
    runnable is remembered or posted: with [mediaRecorder] null that is
    the Idle state. *)
Lemma reachable_not_recording_quiet env src (ss : list Step) :
  let w := exec env src ss (created env) in
  isRecording w = false -> quiet_timer w.
Proof.
  intros w Hr. apply timer_inv_quiet; [|exact Hr].
  apply exec_inv, created_inv.
Qed.

(** The teardown hook goes through stopRecording first: it returns with
    the timer quiet whatever the platform throws. *)
Lemma onDestroy_quiet env :
  triple timer_inv (onDestroy env) (fun _ => quiet_timer) (fun _ => False).
Proof.
  unfold onDestroy.
  eapply triple_bind with (R := fun _ => quiet_timer);
    [apply stopRecording_quiet | intros _].
  eapply triple_bind with (R := fun _ => quiet_timer);
    [apply triple_get; auto | intros t].
  eapply triple_bind with (R := fun _ => quiet_timer).
  - destruct t; [|apply triple_ret; auto].
    apply triple_emit. intros w Hw. now apply (insensitive_quiet_timer w Hw).
  - intros _. apply triple_modify.
    intros w Hw. apply (insensitive_quiet_timer w Hw).
Qed.


(** ** The name of the output file *)

Ltac div_lia := zify; Z.to_euclidean_division_equations; lia.

Section Naming.
Import JavaTime.

Lemma digits_last f n acc :
  (0 < f)%nat -> (n < 10)%nat -> digits f n acc = String (digit n) acc.
Proof.
  intros Hf Hn. destruct f as [|f]; [lia|]. cbn [digits].
  replace (n / 10)%nat with 0%nat by div_lia. reflexivity.
Qed.

Lemma digits_step f n acc :
  (0 < f)%nat -> (10 <= n)%nat ->
  digits f n acc = digits (f - 1) (n / 10) (String (digit n) acc).
Proof.
  intros Hf Hn. destruct f as [|f]; [lia|]. cbn [digits].
  destruct (Nat.eqb_spec (n / 10) 0) as [E|_]; [div_lia|].
  replace (S f - 1)%nat with f by lia. reflexivity.
Qed.

Lemma digit_mod n k : (n mod 10 = k mod 10)%nat -> digit n = digit k.
Proof. unfold digit. now intros ->. Qed.

Ltac pad_digits :=
  cbn [String.length Nat.sub zeros append];
  change "0"%char with (digit 0);
  repeat (f_equal; try (apply digit_mod; div_lia)).

Lemma zeroPad_two n : (n < 100)%nat -> zeroPad 2 n = two n.
Proof.
  intros Hn. unfold zeroPad, decimal, two.
  destruct (Nat.lt_ge_cases n 10) as [H|H].
  - rewrite digits_last by lia. pad_digits.
  - rewrite digits_step by lia.
    rewrite digits_last by div_lia. pad_digits.
Qed.

Lemma zeroPad_four n : (n < 100 * 100)%nat -> zeroPad 4 n = four n.
Proof.
  intros Hn. unfold zeroPad, decimal, four, two.
  destruct (Nat.lt_ge_cases n 10) as [H1|H1];
    [|destruct (Nat.lt_ge_cases n 100) as [H2|H2];
       [|destruct (Nat.lt_ge_cases n 1000) as [H3|H3]]].
  - rewrite digits_last by lia. pad_digits.
  - rewrite digits_step by lia. rewrite digits_last by div_lia.
    pad_digits.
  - rewrite digits_step by lia. rewrite digits_step by div_lia.
    rewrite digits_last by div_lia. pad_digits.
  - rewrite digits_step by lia. rewrite digits_step by div_lia.
    rewrite digits_step by div_lia.
    rewrite digits_last by div_lia. pad_digits.
Qed.

(** The pattern of the service, run on any date. *)
Lemma format_pattern dt :
  SimpleDateFormat "yyyyMMdd_HHmmss" dt =
  Some (zeroPad 4 (year dt) ++ zeroPad 2 (month dt) ++ zeroPad 2 (day dt)
        ++ "_" ++ zeroPad 2 (hour dt) ++ zeroPad 2 (minute dt)
        ++ zeroPad 2 (second dt)).
Proof. reflexivity. Qed.

Lemma format_contract dt :
  calendar dt ->
  SimpleDateFormat "yyyyMMdd_HHmmss" dt = Some (contract_timestamp dt).
Proof.
  intros (Hy & Hm & Hd & Hh & Hmi & Hs).
  rewrite format_pattern, zeroPad_four by exact Hy.
  rewrite !zeroPad_two by assumption. reflexivity.
Qed.

End Naming.

Section Framed.
Variable env : Env.
Variable P : World -> Prop.
Hypothesis HP : framed P.

Lemma framed_insensitive : insensitive P.
Proof. exact (proj1 HP). Qed.

#[local] Hint Resolve framed_insensitive : core.

Lemma framed_emit e : keeps P (emit e).
Proof. apply triple_emit. intros w Hw. apply (proj2 HP w Hw). Qed.

Lemma framed_stopBeepTimer : keeps P stopBeepTimer.
Proof.
  unfold stopBeepTimer.
  apply keeps_bind; [apply keeps_get | intros b].
  apply keeps_bind.
  - destruct b as [r|]; [|apply keeps_ret].
    unfold removeCallbacks.
    apply keeps_bind; [apply framed_emit | intros _].
    apply keeps_modify. intros w Hw. apply (proj2 HP w Hw).
  - intros _. apply keeps_modify. intros w Hw. apply (proj2 HP w Hw).
Qed.

Lemma framed_startBeepTimer : keeps P startBeepTimer.
Proof.
  unfold startBeepTimer.
  apply keeps_bind; [now apply keeps_new_object | intros r].
  apply keeps_bind;
    [apply keeps_modify; intros w Hw; apply (proj2 HP w Hw) | intros _].
  apply keeps_bind; [apply keeps_get | intros b].
  destruct b as [r'|]; [|apply keeps_raise].
  unfold postDelayed.
  apply keeps_bind; [apply framed_emit | intros _].
  apply keeps_modify. intros w Hw. apply (proj2 HP w Hw).
Qed.

Lemma framed_set_isRecording v : keeps P (modify (set_isRecording v)).
Proof. apply keeps_modify. intros w Hw. apply (proj2 HP w Hw). Qed.

Lemma framed_stopRecording : keeps P (stopRecording env).
Proof.
  unfold stopRecording. apply keeps_try.
  - apply keeps_bind; [apply framed_stopBeepTimer | intros _].
    apply keeps_bind; [apply keeps_get | intros m].
    apply keeps_bind;
      [destruct m; [now apply keeps_on_recorder_all | apply keeps_ret]
      | intros _].
    apply keeps_bind; [now apply keeps_set_mediaRecorder | intros _].
    apply keeps_bind; [apply framed_set_isRecording | intros _].
    apply framed_emit.
  - intros e. apply framed_emit.
Qed.

End Framed.

Lemma framed_output_named env n : framed (output_named env n).
Proof.
  split; [intros w Hw; repeat split; intros; exact Hw|].
  intros w Hw. repeat split; intros; exact Hw.
Qed.

(** Once startRecording has evaluated the literal to [n], the output file
    is called [n], however the rest of the call ends. *)
Lemma startRecording_outputFile env src w n :
  (forall ts,
     JavaTime.SimpleDateFormat "yyyyMMdd_HHmmss" (wallclock env (clock w))
       = Some ts ->
     Kotlin.eval [("timestamp", ts)] (outputFile_literal src) = Some n) ->
  output_named env n (snd (startRecording env src w)).
Proof.
  intros Hn.
  pose proof (framed_output_named env n) as HF.
  pose proof (proj1 HF) as HI.
  set (formatted := fun ts =>
         JavaTime.SimpleDateFormat "yyyyMMdd_HHmmss" (wallclock env (clock w))
         = Some ts).
  assert (H : triple (eq w) (startRecording env src)
                (fun _ => output_named env n) (output_named env n)).
  { unfold startRecording.
    eapply triple_try with (X' := output_named env n).
    - eapply triple_bind with (R := fun ts _ => formatted ts).
      { intros x <-. unfold format_now, bind, get.
        rewrite format_pattern. apply format_pattern. }
      intros timestamp.
      eapply triple_bind with (R := fun _ _ => formatted timestamp);
        [apply triple_get; auto | intros present].
      eapply triple_bind with (R := fun _ _ => formatted timestamp).
      { destruct (negb present); [|apply triple_ret; auto].
        unfold mkdirs.
        eapply triple_bind with (R := fun _ _ => formatted timestamp);
          [apply triple_emit; auto | intros _; apply triple_modify; auto]. }
      intros _.
      eapply triple_bind with (R := fun f _ => f = n).
      { intros x Hx. unfold string_literal. rewrite (Hn _ Hx). reflexivity. }
      intros fname.
      eapply triple_bind with (R := fun _ => output_named env n).
      { apply triple_modify. intros x ->. reflexivity. }
      intros _.
      apply keeps_bind; [now apply keeps_newMediaRecorder | intros h].
      apply keeps_bind; [now apply keeps_set_mediaRecorder | intros _].
      apply keeps_bind; [apply keeps_get | intros m].
      apply keeps_bind.
      { destruct m; [|apply keeps_ret].
        apply keeps_bind; [apply keeps_get | intros f].
        now apply keeps_on_recorder_all. }
      intros _.
      apply keeps_bind; [now apply framed_set_isRecording | intros _].
      apply keeps_bind; [now apply framed_startBeepTimer | intros _].
      apply keeps_bind; [now apply keeps_startForeground | intros _].
      now apply framed_emit.
    - intros e.
      apply keeps_bind; [now apply framed_emit | intros _].
      now apply framed_stopRecording. }
  specialize (H w eq_refl).
  destruct (startRecording env src w) as [[u|e] w']; exact H.
Qed.

(** In setup_project.py the template is live: the name carries the
    timestamp. *)
Lemma literal_first_script ts :
  Kotlin.eval [("timestamp", ts)] (outputFile_literal setup_project_py)
  = Some ("VID_" ++ ts ++ ".mp4").
Proof. reflexivity. Qed.

(** In the second script the dollar sign is escaped: the literal has no
    template and the name is the same at every timestamp. *)
Lemma literal_second_script ts :
  Kotlin.eval [("timestamp", ts)] (outputFile_literal setup_project_2_py)
  = Some "VID_$timestamp.mp4".
Proof. reflexivity. Qed.

(** The service of setup_project.py names its output by the contract. *)
Lemma first_script_name_meets_contract env w :
  calendar (wallclock env (clock w)) ->
  output_named env (contract_name (wallclock env (clock w)))
    (snd (startRecording env setup_project_py w)).
Proof.
  intros Hc. apply startRecording_outputFile.
  intros ts Hts. rewrite (format_contract _ Hc) in Hts.
  injection Hts as <-. apply literal_first_script.
Qed.

Lemma contract_name_has_digit dt : contract_name dt <> "VID_$timestamp.mp4".
Proof.
  unfold contract_name, contract_timestamp, four, two. cbn [append].
  intros H. injection H as H _. revert H.
  unfold JavaTime.digit.
  set (k := (JavaTime.year dt / 100 / 10) mod 10).
  assert (Hk : k < 10) by (apply Nat.mod_upper_bound; discriminate).
  intros H. apply (f_equal nat_of_ascii) in H.
  rewrite nat_ascii_embedding in H by lia. cbn in H. lia.
Qed.

(** C9, on the second script (the code the claim cites).  Whatever the
    time and whatever the platform does, startRecording leaves outputFile
    named by the fixed text VID_$timestamp.mp4, which no date turns into
    the name the contract asks for. *)
Theorem C9_second_script_name_ignores_timestamp :
  forall env w,
    output_named env "VID_$timestamp.mp4"
      (snd (startRecording env setup_project_2_py w)) /\
    forall dt, contract_name dt <> "VID_$timestamp.mp4".
Proof.
  intros env w. split.
  - apply startRecording_outputFile. intros ts _. apply literal_second_script.
  - apply contract_name_has_digit.
Qed.

(** ** The permission gate *)

Section Gate.
Import MainActivity.
Variable granted : Permission -> bool.
Variable src : SourceFile.

Lemma commands_app a b : commands (a ++ b) = (commands a ++ commands b)%list.
Proof.
  induction a as [|e a IH]; [reflexivity|].
  destruct e; cbn; rewrite ?IH; reflexivity.
Qed.

(** [all] answers as [forallb] does and touches nothing but the log of
    checks. *)
Lemma all_spec ps a :
  fst (all granted ps a) = forallb granted ps /\
  MainActivity.isRecording (snd (all granted ps a)) = MainActivity.isRecording a /\
  btnRecord_listener (snd (all granted ps a)) = btnRecord_listener a /\
  commands (out (snd (all granted ps a))) = commands (out a).
Proof.
  revert a. induction ps as [|p ps IH]; intros a; cbn [all forallb].
  - auto.
  - destruct (granted p); cbn [andb].
    + destruct (IH (say (UiCheckSelfPermission p) a)) as (H1 & H2 & H3 & H4).
      rewrite H1, H2, H3, H4. cbn. rewrite commands_app. cbn.
      now rewrite app_nil_r.
    + cbn. rewrite commands_app. cbn. now rewrite app_nil_r.
Qed.

Lemma gate_queries_app a b :
  gate_queries (a ++ b) = (gate_queries a + gate_queries b)%nat.
Proof.
  induction a as [|e a IH]; [reflexivity|].
  destruct e; cbn; rewrite ?IH; reflexivity.
Qed.

(** [all] makes one query per permission up to the first refusal. *)
Lemma all_queries ps a :
  exists k,
    gate_queries (out (snd (all granted ps a)))
      = (gate_queries (out a) + k)%nat /\
    (k <= List.length ps)%nat /\ (ps <> [] -> 1 <= k)%nat.
Proof.
  revert a. induction ps as [|p ps IH]; intros a; cbn [all].
  - exists 0%nat. cbn. repeat split; [lia | lia | congruence].
  - destruct (granted p).
    + destruct (IH (say (UiCheckSelfPermission p) a)) as (k & E & Hk & _).
      exists (S k). rewrite E. cbn. rewrite gate_queries_app. cbn.
      repeat split; lia.
    + exists 1%nat. cbn. rewrite gate_queries_app. cbn.
      repeat split; lia.
Qed.

(** The gate is consulted by onCreate: between one and four queries. *)
Lemma onCreate_queries a :
  exists k,
    gate_queries (out (MainActivity.onCreate granted a))
      = (gate_queries (out a) + k)%nat /\
    (1 <= k <= 4)%nat.
Proof.
  unfold MainActivity.onCreate, allPermissionsGranted.
  destruct (all_queries REQUIRED_PERMISSIONS a) as (k & E & Hk & Hk').
  exists k. split; [|split; [apply Hk'; discriminate | exact Hk]].
  destruct (all granted REQUIRED_PERMISSIONS a) as [[|] a']; cbn in E |- *;
    rewrite gate_queries_app, E; cbn; lia.
Qed.

Hypothesis unauthorized : forallb granted REQUIRED_PERMISSIONS = false.

Lemma gate_closed a :
  inert a ->
  fst (allPermissionsGranted granted a) = false /\
  inert (snd (allPermissionsGranted granted a)).
Proof.
  intros (H1 & H2 & H3). unfold allPermissionsGranted.
  destruct (all_spec REQUIRED_PERMISSIONS a) as (E1 & E2 & E3 & E4).
  split; [now rewrite E1|].
  unfold inert. now rewrite E2, E3, E4.
Qed.

Lemma inert_say e a :
  commands [e] = [] -> inert a -> inert (say e a).
Proof.
  intros He (H1 & H2 & H3). repeat split; cbn; auto.
  now rewrite commands_app, H3, He.
Qed.

Lemma step_inert i a : inert a -> inert (MainActivity.step granted src i a).
Proof.
  intros Ha. pose proof Ha as (H1 & H2 & H3).
  destruct i as [| | |c|]; cbn [MainActivity.step].
  - unfold MainActivity.onCreate.
    destruct (gate_closed a Ha) as [E Hi].
    destruct (allPermissionsGranted granted a) as [ok a']. cbn in E, Hi.
    subst ok. now apply inert_say.
  - now rewrite H1.
  - destruct (btnSettings_listener a); [now apply inert_say | exact Ha].
  - unfold onRequestPermissionsResult.
    destruct (c =? REQUEST_CODE_PERMISSIONS)%Z; [|exact Ha].
    destruct (gate_closed a Ha) as [E Hi].
    destruct (allPermissionsGranted granted a) as [ok a']. cbn in E, Hi.
    subst ok. now repeat apply inert_say.
  - unfold MainActivity.onDestroy. now rewrite H2.
Qed.

Lemma exec_inert inputs a :
  inert a -> inert (MainActivity.exec granted src inputs a).
Proof.
  revert a. induction inputs as [|i inputs IH]; intros a Ha; [exact Ha|].
  apply IH, step_inert, Ha.
Qed.

End Gate.

(** C5, as the code has it.  While some required permission is refused,
    whatever the user and the host do to the activity, pressing the
    record button changes nothing (no permission check, no report, no
    command), the activity is not recording, and no command at all has
    been sent to the service, whose world is therefore untouched.  The
    gate is consulted when the activity is created, with one to four
    permission queries, not when a start is requested. *)
Theorem C5_unauthorized_start_is_inert :
  forall granted src inputs,
    forallb granted MainActivity.REQUIRED_PERMISSIONS = false ->
    let a := MainActivity.exec granted src inputs MainActivity.new_activity in
    MainActivity.step granted src MainActivity.PressRecord a = a /\
    MainActivity.isRecording a = false /\
    MainActivity.commands (MainActivity.out a) = [] /\
    (forall env w,
       exec env src (MainActivity.commands (MainActivity.out a)) w = w) /\
    exists k,
      MainActivity.gate_queries
        (MainActivity.out (MainActivity.step granted src MainActivity.Create a))
      = (MainActivity.gate_queries (MainActivity.out a) + k)%nat /\
      (1 <= k <= 4)%nat.
Proof.
  intros granted src inputs Hg a.
  assert (H0 : inert MainActivity.new_activity) by (repeat split).
  destruct (exec_inert granted src Hg inputs _ H0) as (H1 & H2 & H3).
  fold a in H1, H2, H3.
  split; [|split; [exact H2 | split; [exact H3 | split]]].
  - cbn [MainActivity.step]. now rewrite H1.
  - intros. now rewrite H3.
  - apply onCreate_queries.
Qed.

Lemma C5_witness :
  let granted := fun p =>
    match p with MainActivity.CAMERA => false | _ => true end in
  let a := MainActivity.exec granted setup_project_2_py
             [MainActivity.Create; MainActivity.PressRecord;
              MainActivity.PermissionsResult 10; MainActivity.PressRecord]
             MainActivity.new_activity in
  forallb granted MainActivity.REQUIRED_PERMISSIONS = false /\
  MainActivity.commands (MainActivity.out a) = [].
Proof.
  split; [reflexivity|].
  exact (proj1 (proj2 (proj2
    (C5_unauthorized_start_is_inert
       (fun p => match p with MainActivity.CAMERA => false | _ => true end)
       setup_project_2_py
       [MainActivity.Create; MainActivity.PressRecord;
        MainActivity.PermissionsResult 10; MainActivity.PressRecord]
       eq_refl)))).
Defined.

(** C5 as stated fails.  With every permission refused, a press of the
    record button after onCreate adds no event: nothing is reported and
    the gate is not queried (the claim wants one report and exactly one
    query).  And the service has no gate of its own: a Start command that
    does reach it acquires a recorder and starts recording. *)
Lemma C5_counterexample :
  let denied := fun _ : MainActivity.Permission => false in
  let a := MainActivity.exec denied setup_project_2_py
             [MainActivity.Create] MainActivity.new_activity in
  let a' := MainActivity.step denied setup_project_2_py
              MainActivity.PressRecord a in
  let w := exec no_faults setup_project_2_py
             [Start setup_project_2_py] (created no_faults) in
  MainActivity.out a' = MainActivity.out a /\
  filter MainActivity.is_report (MainActivity.out a') = [] /\
  MainActivity.gate_queries (MainActivity.out a')
    - MainActivity.gate_queries (MainActivity.out a) <> 1 /\
  isRecording w = true /\ held (trace w) = [1].
Proof. vm_compute. repeat split; discriminate. Qed.

(** ** stopRecording, one platform behaviour at a time *)

Lemma held_app tr evs : held (tr ++ evs) = fold_left hold evs (held tr).
Proof. unfold held. apply fold_left_app. Qed.

Lemma releases_app tr evs h :
  releases (tr ++ evs) h = (releases tr h + releases evs h)%nat.
Proof. unfold releases. now rewrite filter_app, length_app. Qed.

(** Whenever [stop()] throws, stopRecording leaves the recorder where it
    was: not released, still in the field, isRecording unchanged.  Only
    the timer is cancelled. *)
Lemma stopRecording_skips_release env w h :
  mediaRecorder w = Some h ->
  throws env (ncalls w) (OnRecorder h stop) = true ->
  let w' := snd (stopRecording env w) in
  mediaRecorder w' = Some h /\ isRecording w' = isRecording w /\
  held (trace w') = held (trace w) /\
  releases (trace w') h = releases (trace w) h /\
  beepRunnable w' = None.
Proof.
  intros Hm Ht.
  unfold stopRecording, try_catch, stopBeepTimer, removeCallbacks, bind, get,
    emit, modify, Log_e.
  destruct (beepRunnable w) as [r|] eqn:Eb; cbn; rewrite Hm; cbn;
    unfold on_recorder, try_catch, bind, platform; cbn; rewrite Ht; cbn;
    repeat split; auto;
    unfold held, releases;
    rewrite ?fold_left_app, ?filter_app, ?length_app; cbn;
    first [reflexivity | lia].
Qed.

(** When [stop()], [reset()] and [release()] all return, stopRecording
    releases the recorder once and ends in Idle. *)
Lemma stopRecording_releases env w h :
  mediaRecorder w = Some h ->
  throws env (ncalls w) (OnRecorder h stop) = false ->
  throws env (S (ncalls w)) (OnRecorder h reset) = false ->
  throws env (S (S (ncalls w))) (OnRecorder h release) = false ->
  let w' := snd (stopRecording env w) in
  mediaRecorder w' = None /\ isRecording w' = false /\
  beepRunnable w' = None /\
  held (trace w') = filter (fun x => negb (Nat.eqb x h)) (held (trace w)) /\
  releases (trace w') h = S (releases (trace w) h).
Proof.
  intros Hm H1 H2 H3.
  unfold stopRecording, try_catch, stopBeepTimer, removeCallbacks, bind, get,
    emit, modify, Log_d.
  destruct (beepRunnable w) as [r|] eqn:Eb; cbn; rewrite Hm; cbn;
    unfold on_recorder, try_catch, bind, platform; cbn;
    rewrite H1; cbn; rewrite H2; cbn; rewrite H3; cbn;
    repeat split; auto;
    unfold held, releases;
    rewrite ?fold_left_app, ?filter_app, ?length_app; cbn;
    rewrite ?Nat.eqb_refl; cbn; first [reflexivity | lia].
Qed.

(** ** Where the recorder is not released *)

(** C2, at the failing input: Start, then Stop while [stop()] throws.
    The timer is cancelled, but [release()] is never called, the field
    still holds the recorder and isRecording is still true. *)
Theorem C2_stop_failure_skips_release :
  let w := exec stop_throws setup_project_2_py
             [Start setup_project_2_py; Stop setup_project_2_py]
             (created stop_throws) in
  mediaRecorder w = Some 1 /\ isRecording w = true /\
  held (trace w) = [1] /\ releases (trace w) 1 = 0 /\
  beepRunnable w = None /\ queue w = [] /\
  In (EvCall 1 stop false) (trace w) /\
  In (EvLogE TAG "Error stopping recording") (trace w).
Proof. vm_compute. repeat split; auto 30. Qed.

(** C3, at the failing input: Start while [prepare()] throws.  The catch
    block logs the failure and calls stopRecording, whose [stop()] on the
    recorder that never started throws in turn: the recorder is not
    released and the field still holds it, with isRecording false. *)
Theorem C3_failed_start_keeps_recorder :
  let w := exec prepare_throws setup_project_2_py
             [Start setup_project_2_py] (created prepare_throws) in
  mediaRecorder w = Some 1 /\ isRecording w = false /\
  held (trace w) = [1] /\ releases (trace w) 1 = 0 /\
  In (EvCall 1 prepare false) (trace w) /\
  In (EvLogE TAG "Error starting recording") (trace w) /\
  In (EvCall 1 stop false) (trace w).
Proof. vm_compute. repeat split; auto 30. Qed.

(** C1, at the failing input: two Start commands while [prepare()]
    throws, then Stop.  Each Start constructs a recorder and loses it
    unreleased; when the sequence has settled two recorders are held and
    the service is not recording. *)
Theorem C1_two_recorders_held_while_idle :
  let w := exec prepare_throws setup_project_2_py
             [Start setup_project_2_py; Start setup_project_2_py;
              Stop setup_project_2_py]
             (created prepare_throws) in
  held (trace w) = [1; 2] /\ isRecording w = false /\
  releases (trace w) 1 = 0 /\ releases (trace w) 2 = 0 /\
  mediaRecorder w = Some 2.
Proof. vm_compute. repeat split. Qed.

(** * Further properties of the service *)


(** X2. With a recorder in the field, if [stop()], [reset()] and
    [release()] return, stopRecording releases that recorder exactly once,
    clears the field and isRecording, forgets the runnable, and the
    recorder is no longer held. *)
Theorem X2_stopRecording_releases_when_platform_returns :
  forall env w h,
    mediaRecorder w = Some h ->
    throws env (ncalls w) (OnRecorder h stop) = false ->
    throws env (S (ncalls w)) (OnRecorder h reset) = false ->
    throws env (S (S (ncalls w))) (OnRecorder h release) = false ->
    let w' := snd (stopRecording env w) in
    mediaRecorder w' = None /\ isRecording w' = false /\
    beepRunnable w' = None /\
    held (trace w') = filter (fun x => negb (Nat.eqb x h)) (held (trace w)) /\
    releases (trace w') h = S (releases (trace w) h).
Proof. intros env w h. apply stopRecording_releases. Qed.

Lemma X2_witness :
  let w := exec no_faults setup_project_py [Start setup_project_py]
             (created no_faults) in
  let w' := snd (stopRecording no_faults w) in
  mediaRecorder w = Some 1 /\
  mediaRecorder w' = None /\ isRecording w' = false /\
  held (trace w') = [] /\ releases (trace w') 1 = 1.
Proof.
  pose proof (X2_stopRecording_releases_when_platform_returns no_faults
                (exec no_faults setup_project_py [Start setup_project_py]
                   (created no_faults)) 1 eq_refl eq_refl eq_refl eq_refl)
    as (H1 & H2 & _ & H4 & H5).
  cbv zeta.
  split; [reflexivity | split; [exact H1 | split; [exact H2 | split]]];
    [exact H4 | exact H5].
Defined.

(** X3. With a recorder in the field, if [stop()] throws, stopRecording
    returns all the same, but [release()] is not called: the field still
    holds the recorder, isRecording is as before, the set of held
    recorders is unchanged; only the runnable is forgotten. *)
Theorem X3_stopRecording_keeps_recorder_when_stop_throws :
  forall env w h,
    mediaRecorder w = Some h ->
    throws env (ncalls w) (OnRecorder h stop) = true ->
    let w' := snd (stopRecording env w) in
    fst (stopRecording env w) = Ret tt /\
    mediaRecorder w' = Some h /\ isRecording w' = isRecording w /\
    held (trace w') = held (trace w) /\
    releases (trace w') h = releases (trace w) h /\
    beepRunnable w' = None.
Proof.
  intros env w h Hm Ht.
  split; [|now apply stopRecording_skips_release].
  unfold stopRecording, try_catch, stopBeepTimer, removeCallbacks, bind, get,
    emit, modify, Log_e.
  destruct (beepRunnable w); cbn; rewrite Hm; cbn;
    unfold on_recorder, try_catch, bind, platform; cbn; rewrite Ht;
    reflexivity.
Qed.

Lemma X3_witness :
  let w := exec stop_throws setup_project_py [Start setup_project_py]
             (created stop_throws) in
  let w' := snd (stopRecording stop_throws w) in
  mediaRecorder w = Some 1 /\
  mediaRecorder w' = Some 1 /\ isRecording w' = true /\ held (trace w') = [1].
Proof.
  pose proof (X3_stopRecording_keeps_recorder_when_stop_throws stop_throws
                (exec stop_throws setup_project_py [Start setup_project_py]
                   (created stop_throws)) 1 eq_refl eq_refl)
    as (_ & H1 & H2 & H3 & _).
  cbv zeta.
  split; [reflexivity | split; [exact H1 | split; [exact H2 | exact H3]]].
Defined.

(** X4. In setup_project.py the template is live: at any date whose year
    has at most four digits, startRecording leaves outputFile named
    VID_yyyyMMdd_HHmmss.mp4 in the Videos directory, whatever the
    platform throws afterwards. *)
Theorem X4_first_script_name_meets_contract :
  forall env w,
    calendar (wallclock env (clock w)) ->
    output_named env (contract_name (wallclock env (clock w)))
      (snd (startRecording env setup_project_py w)).
Proof. intros env w. apply first_script_name_meets_contract. Qed.

Lemma X4_witness :
  calendar noon /\
  option_map name
    (outputFile (snd (startRecording prepare_throws setup_project_py
                        (created prepare_throws))))
  = Some "VID_20240309_120507.mp4".
Proof.
  assert (H : calendar noon) by (unfold calendar, noon; cbn; lia).
  split; [exact H|].
  rewrite (X4_first_script_name_meets_contract prepare_throws
             (created prepare_throws) H).
  reflexivity.
Defined.


(** ** At most one pending beep *)

Lemma insensitive_tidy : insensitive tidy.
Proof. intros w Hw. repeat split; apply Hw. Qed.

Lemma quiet_tidy w : quiet_timer w -> tidy w.
Proof.
  intros Hq. split; [now apply quiet_timer_inv|].
  destruct Hq as [_ Hq]. rewrite Hq. cbn. lia.
Qed.

Lemma keeps_q_tidy {A} (m : M A) :
  keeps quiet_timer m -> triple quiet_timer m (fun _ => quiet_timer) tidy.
Proof.
  intros H. eapply triple_weaken; [exact H | auto | auto |].
  apply quiet_tidy.
Qed.

Ltac t_step x :=
  eapply triple_bind;
    [apply keeps_q_tidy; solve [auto with keeps] | intros x; cbv beta].

Section Tidy.
Variable env : Env.
Variable src : SourceFile.

Lemma startBeepTimer_tidy :
  triple (fun w => quiet_timer w /\ isRecording w = true)
    startBeepTimer (fun _ => tidy) tidy.
Proof.
  intros w Hw. pose proof (startBeepTimer_inv w Hw) as H.
  destruct Hw as [[Hb Hq] Hr]. revert H.
  unfold startBeepTimer, bind, new_object, modify, get. cbn.
  intros H. split; [exact H|]. cbn. rewrite Hq. cbn. lia.
Qed.

Lemma startRecording_tidy :
  triple quiet_timer (startRecording env src) (fun _ => tidy) (fun _ => False).
Proof.
  unfold startRecording.
  eapply triple_try with (X' := tidy).
  - t_step timestamp. t_step present.
    eapply triple_bind;
      [apply keeps_q_tidy; destruct (negb present); auto with keeps
      | intros ?; cbv beta].
    t_step fname. t_step u. t_step h. t_step u'. t_step m.
    eapply triple_bind;
      [apply keeps_q_tidy; destruct m; [keep_step|]; auto with keeps
      | intros ?; cbv beta].
    eapply triple_bind with
      (R := fun _ w => quiet_timer w /\ isRecording w = true).
    { apply triple_modify. intros w Hw. split; [exact Hw | reflexivity]. }
    intros ?; cbv beta.
    eapply triple_bind; [apply startBeepTimer_tidy | intros ?; cbv beta].
    apply keeps_bind;
      [apply keeps_startForeground, insensitive_tidy | intros _].
    unfold Log_d. now apply keeps_emit; [apply insensitive_tidy|].
  - intros e. eapply triple_bind with (R := fun _ => tidy).
    + unfold Log_e. apply triple_emit.
      intros w Hw. now apply (insensitive_tidy w Hw).
    + intros _. eapply triple_weaken;
        [apply stopRecording_quiet | intros w Hw; apply Hw | 
        | intros ? []].
      intros a w Hw. apply quiet_tidy, Hw.
Qed.

Lemma onStartCommand_tidy intent :
  triple tidy (onStartCommand env src intent) (fun _ => tidy) (fun _ => False).
Proof.
  unfold onStartCommand.
  eapply triple_bind with (R := fun _ => tidy);
    [| intros _; apply triple_ret; auto].
  destruct (is_case _ _).
  - eapply triple_bind with
      (R := fun rec w => tidy w /\ rec = isRecording w).
    + apply triple_get. auto.
    + intros [|]; cbn [negb].
      * apply triple_ret. tauto.
      * eapply triple_weaken; [apply startRecording_tidy | | auto | auto].
        intros w [[Hw _] Hr]. apply timer_inv_quiet; auto.
  - destruct (is_case _ _); [|apply triple_ret; auto].
    eapply triple_bind with (R := fun _ => quiet_timer).
    + eapply triple_weaken;
        [apply stopRecording_quiet | intros w Hw; apply Hw | auto | auto].
    + intros _. unfold stopSelf. apply triple_emit.
      intros w Hw. apply quiet_tidy.
      now apply (insensitive_quiet_timer w Hw).
Qed.

Lemma run_single r w :
  queue w = [] -> (List.length (queue (snd (run r w))) <= 1)%nat.
Proof.
  intros Hq. unfold run, playBeep, postDelayed, bind, get, emit, modify.
  destruct (toneGenerator w); cbn; rewrite Hq; cbn; lia.
Qed.

Lemma step_tidy s w : tidy w -> tidy (step env src s w).
Proof.
  intros Hw. split; [apply step_inv, Hw|].
  destruct s as [intent|ms| |]; cbn [step].
  - pose proof (onStartCommand_tidy intent w Hw) as H.
    destruct (onStartCommand env src intent w) as [[r|e] w'];
      [apply H | destruct H].
  - apply Hw.
  - destruct Hw as [_ Hl].
    destruct (queue w) as [|[due r] q] eqn:E; [rewrite E; cbn; lia|].
    destruct (due <=? clock w)%Z; [|rewrite E; exact Hl].
    apply run_single. cbn. destruct q; [reflexivity | cbn in Hl; lia].
  - destruct Hw as [_ Hl].
    destruct (queue w) as [|[due r] q] eqn:E; [rewrite E; cbn; lia|].
    apply run_single. cbn. destruct q; [reflexivity | cbn in Hl; lia].
Qed.

Lemma exec_tidy ss w : tidy w -> tidy (exec env src ss w).
Proof.
  revert w. induction ss as [|s ss IH]; intros w Hw; cbn; [exact Hw|].
  apply IH, step_tidy, Hw.
Qed.

Lemma created_tidy : tidy (created env).
Proof.
  split; [apply created_inv|].
  assert (H : keeps (fun w => queue w = []) (onCreate env)).
  { unfold onCreate, createNotificationChannel.
    apply keeps_bind.
    - destruct (VERSION_CODES_O <=? SDK_INT env)%Z;
        [apply triple_emit | apply triple_ret]; auto.
    - intros _. apply keeps_bind.
      + intros w Hw. unfold platform.
        destruct (throws env (ncalls w) NewToneGenerator); exact Hw.
      + intros _. apply keeps_bind; [intros w Hw; exact Hw | intros t].
        apply triple_modify. auto. }
  specialize (H new_service eq_refl). unfold created.
  destruct (onCreate env new_service) as [[r|e] w']; cbn; rewrite H; cbn; lia.
Qed.

End Tidy.

(** X6. One TimerToken at most.  In every state the service can reach,
    whatever the platform throws, at most one beep is pending on the
    looper, every pending beep belongs to the runnable the service
    remembers, and while the service is not recording nothing is pending
    and no runnable is remembered. *)
Theorem X6_at_most_one_pending_beep :
  forall env src (ss : list Step),
    let w := exec env src ss (created env) in
    (List.length (queue w) <= 1)%nat /\
    Forall (fun m => beepRunnable w = Some (snd m)) (queue w) /\
    (isRecording w = true \/ (beepRunnable w = None /\ queue w = [])).
Proof.
  intros env src ss w.
  assert (Hw : tidy w) by apply exec_tidy, created_tidy.
  destruct Hw as [Hi Hl]. split; [exact Hl | split].
  - apply Forall_forall. intros m Hm. apply Hi, Hm.
  - destruct (isRecording w) eqn:Hr; [now left | right].
    apply timer_inv_quiet; assumption.
Qed.

(** * The activity and its commands *)

Section Toggle.
Import MainActivity.
Variable granted : Permission -> bool.
Variable src : SourceFile.

Lemma alternating_snoc r n :
  alternating src r (S n)
  = (alternating src r n
     ++ [if xorb r (Nat.odd n) then Stop src else Start src])%list.
Proof.
  revert r. induction n as [|n IH]; intros r.
  - cbn. now destruct r.
  - change (alternating src r (S (S n)))
      with ((if r then Stop src else Start src)
              :: alternating src (negb r) (S n)).
    rewrite IH. cbn [alternating app]. do 3 f_equal.
    rewrite Nat.odd_succ, <- Nat.negb_odd. now destruct r, (Nat.odd n).
Qed.



Lemma in_step_setupUI a n : in_step src a n -> in_step src (setupUI a) n.
Proof.
  intros [H1 H2]. split; [|exact H2].
  cbn. now rewrite commands_app, H1, app_nil_r.
Qed.

Lemma in_step_stop a n :
  in_step src a n -> MainActivity.isRecording a = true ->
  in_step src (MainActivity.stopRecording src a) (S n).
Proof.
  intros [H1 H2] Hr. rewrite H2 in Hr. split.
  - rewrite alternating_snoc, Hr, <- H1.
    unfold MainActivity.stopRecording, updateRecordingStatus. cbn.
    rewrite !commands_app. cbn. now rewrite !app_nil_r.
  - cbn [MainActivity.isRecording MainActivity.stopRecording say
         MainActivity.set_isRecording updateRecordingStatus].
    now rewrite Nat.odd_succ, <- Nat.negb_odd, Hr.
Qed.

Lemma in_step_start a n :
  in_step src a n -> MainActivity.isRecording a = false ->
  in_step src (MainActivity.startRecording src a) (S n).
Proof.
  intros [H1 H2] Hr. rewrite H2 in Hr. split.
  - rewrite alternating_snoc, Hr, <- H1.
    unfold MainActivity.startRecording, updateRecordingStatus. cbn.
    rewrite !commands_app. cbn. now rewrite !app_nil_r.
  - cbn [MainActivity.isRecording MainActivity.startRecording say
         MainActivity.set_isRecording updateRecordingStatus].
    now rewrite Nat.odd_succ, <- Nat.negb_odd, Hr.
Qed.



Lemma press_toggles a n :
  btnRecord_listener a = true -> in_step src a n ->
  btnRecord_listener (MainActivity.step granted src PressRecord a) = true /\
  in_step src (MainActivity.step granted src PressRecord a) (S n).
Proof.
  intros Hl H. cbn [MainActivity.step]. rewrite Hl.
  destruct (MainActivity.isRecording a) eqn:Hr.
  - split; [exact Hl | now apply in_step_stop].
  - split; [exact Hl | now apply in_step_start].
Qed.

Lemma presses_toggle n : forall a k,
  btnRecord_listener a = true -> in_step src a k ->
  in_step src (MainActivity.exec granted src (repeat PressRecord n) a) (n + k).
Proof.
  induction n as [|n IH]; intros a k Hl H; [exact H|].
  destruct (press_toggles a k Hl H) as [Hl' H'].
  change (MainActivity.exec granted src (repeat PressRecord (S n)) a)
    with (MainActivity.exec granted src (repeat PressRecord n)
            (MainActivity.step granted src PressRecord a)).
  replace (S n + k)%nat with (n + S k)%nat by lia.
  now apply IH.
Qed.

End Toggle.


(** With every required permission granted, [n] presses after onCreate
    leave the activity in step [n]. *)
Lemma granted_presses granted src n :
  forallb granted MainActivity.REQUIRED_PERMISSIONS = true ->
  in_step src
    (MainActivity.exec granted src
       (MainActivity.Create :: repeat MainActivity.PressRecord n)
       MainActivity.new_activity) n.
Proof.
  intros Hg.
  set (a0 := MainActivity.step granted src MainActivity.Create
               MainActivity.new_activity).
  assert (H0 : MainActivity.btnRecord_listener a0 = true /\
               in_step src a0 0).
  { unfold a0. cbn [MainActivity.step].
    unfold MainActivity.onCreate, MainActivity.allPermissionsGranted.
    destruct (all_spec granted MainActivity.REQUIRED_PERMISSIONS
                MainActivity.new_activity) as (E1 & E2 & E3 & E4).
    rewrite Hg in E1.
    destruct (MainActivity.all granted MainActivity.REQUIRED_PERMISSIONS
                MainActivity.new_activity) as [ok a']; cbn in E1, E2, E4.
    subst ok. split; [reflexivity|].
    apply in_step_setupUI. split; [exact E4 | exact E2]. }
  destruct H0 as [Hl H0].
  pose proof (presses_toggle granted src n a0 0 Hl H0) as H.
  rewrite Nat.add_0_r in H. exact H.
Qed.

(** X8. With every required permission granted, onCreate wires the
    record button and each press toggles: after n presses the activity
    has sent exactly n commands, Start first, and is recording iff n is
    odd. *)
Theorem X8_granted_presses_toggle :
  forall granted src n,
    forallb granted MainActivity.REQUIRED_PERMISSIONS = true ->
    let a := MainActivity.exec granted src
               (MainActivity.Create :: repeat MainActivity.PressRecord n)
               MainActivity.new_activity in
    MainActivity.commands (MainActivity.out a) = alternating src false n /\
    MainActivity.isRecording a = Nat.odd n.
Proof. intros granted src n Hg. exact (granted_presses granted src n Hg). Qed.

Lemma X8_witness :
  forallb (fun _ => true) MainActivity.REQUIRED_PERMISSIONS = true /\
  MainActivity.commands
    (MainActivity.out
       (MainActivity.exec (fun _ => true) setup_project_2_py
          (MainActivity.Create :: repeat MainActivity.PressRecord 3)
          MainActivity.new_activity))
  = [Start setup_project_2_py; Stop setup_project_2_py;
     Start setup_project_2_py].
Proof.
  split; [reflexivity|].
  exact (proj1 (X8_granted_presses_toggle (fun _ => true) setup_project_2_py 3
                  eq_refl)).
Defined.

(** * One name per second *)

Lemma digit_inj a b : JavaTime.digit a = JavaTime.digit b -> a mod 10 = b mod 10.
Proof.
  unfold JavaTime.digit. intros H. apply (f_equal nat_of_ascii) in H.
  assert (Ha : a mod 10 < 10) by (apply Nat.mod_upper_bound; discriminate).
  assert (Hb : b mod 10 < 10) by (apply Nat.mod_upper_bound; discriminate).
  rewrite !nat_ascii_embedding in H by lia. lia.
Qed.

Lemma String_inj c1 s1 c2 s2 :
  String c1 s1 = String c2 s2 -> c1 = c2 /\ s1 = s2.
Proof. intros H. now injection H. Qed.

Lemma contract_name_injective dt1 dt2 :
  calendar dt1 -> calendar dt2 ->
  contract_name dt1 = contract_name dt2 -> dt1 = dt2.
Proof.
  destruct dt1 as [y1 m1 d1 h1 i1 s1], dt2 as [y2 m2 d2 h2 i2 s2].
  unfold calendar, contract_name, contract_timestamp, four, two.
  cbn [JavaTime.year JavaTime.month JavaTime.day JavaTime.hour
       JavaTime.minute JavaTime.second append].
  intros (Hy1 & Hm1 & Hd1 & Hh1 & Hi1 & Hs1) (Hy2 & Hm2 & Hd2 & Hh2 & Hi2 & Hs2) H.
  repeat (apply String_inj in H; destruct H as [? H]).
  repeat match goal with
         | E : JavaTime.digit _ = JavaTime.digit _ |- _ =>
             apply digit_inj in E
         end.
  f_equal; div_lia.
Qed.

(** X9. In setup_project.py, recordings started at different seconds get
    different files: for two dates with years of at most four digits,
    the output files of two calls of startRecording are the same only if
    the dates are the same. *)
Theorem X9_first_script_one_name_per_second :
  forall env w1 w2,
    calendar (wallclock env (clock w1)) ->
    calendar (wallclock env (clock w2)) ->
    outputFile (snd (startRecording env setup_project_py w1))
    = outputFile (snd (startRecording env setup_project_py w2)) ->
    wallclock env (clock w1) = wallclock env (clock w2).
Proof.
  intros env w1 w2 H1 H2 E.
  pose proof (first_script_name_meets_contract env w1 H1) as N1.
  pose proof (first_script_name_meets_contract env w2 H2) as N2.
  unfold output_named in N1, N2. rewrite N1, N2 in E.
  assert (En : name (child (Some (videoDir env))
                      (contract_name (wallclock env (clock w1))))
             = name (child (Some (videoDir env))
                      (contract_name (wallclock env (clock w2)))))
    by congruence.
  now apply contract_name_injective.
Qed.

Lemma X9_witness :
  let w1 := created ticking in
  let w2 := step ticking setup_project_py (Elapse 1000) w1 in
  calendar (wallclock ticking (clock w1)) /\
  calendar (wallclock ticking (clock w2)) /\
  outputFile (snd (startRecording ticking setup_project_py w1))
  <> outputFile (snd (startRecording ticking setup_project_py w2)).
Proof.
  assert (H1 : calendar (wallclock ticking (clock (created ticking))))
    by (repeat split; apply Nat.ltb_lt; reflexivity).
  assert (H2 : calendar (wallclock ticking
                 (clock (step ticking setup_project_py (Elapse 1000)
                           (created ticking)))))
    by (repeat split; apply Nat.ltb_lt; reflexivity).
  split; [exact H1 | split; [exact H2|]].
  intros E.
  pose proof (X9_first_script_one_name_per_second ticking _ _ H1 H2 E) as D.
  discriminate D.
Defined.

(** * The recorder across commands *)

Lemma held_snoc tr e : held (tr ++ [e]) = hold (held tr) e.
Proof. unfold held. now rewrite fold_left_app. Qed.

Lemma releases_snoc tr e h :
  releases (tr ++ [e]) h
  = (releases tr h + if is_release_of h e then 1 else 0)%nat.
Proof.
  unfold releases. rewrite filter_app, length_app. cbn.
  now destruct (is_release_of h e).
Qed.

Lemma neutral_hold e l : neutral e = true -> hold l e = l.
Proof.
  intros H.
  destruct e as [h|h c b|? ?|? ?|? ?|?|?|?|?|? ?| |];
    try reflexivity; try discriminate.
  destruct c, b; try reflexivity; discriminate.
Qed.

Lemma neutral_release e h : neutral e = true -> is_release_of h e = false.
Proof.
  intros H.
  destruct e as [h'|h' c b|? ?|? ?|? ?|?|?|?|?|? ?| |];
    try reflexivity; try discriminate.
  destruct c, b; try reflexivity; discriminate.
Qed.

Section Calm.
Variable env : Env.
Variable P : World -> Prop.
Hypothesis HP : calm P.

Lemma calm_emit e : neutral e = true -> keeps P (emit e).
Proof. intros He. apply triple_emit. intros w Hw. now apply (HP w Hw). Qed.

Lemma calm_platform c : keeps P (platform env c).
Proof.
  intros w Hw. unfold platform.
  destruct (throws env (ncalls w) c); apply (HP w Hw).
Qed.

Lemma calm_new_object : keeps P new_object.
Proof. intros w Hw. cbn. apply (HP w Hw). Qed.

Lemma calm_on_recorder h c :
  neutral (EvCall h c true) = true -> keeps P (on_recorder env h c).
Proof.
  intros Hc. unfold on_recorder. apply keeps_try.
  - apply keeps_bind; [apply calm_platform | intros; now apply calm_emit].
  - intros e.
    apply keeps_bind;
      [apply calm_emit; destruct c; reflexivity | intros; apply keeps_raise].
Qed.

Lemma calm_on_recorder_all h cs :
  forallb (fun c => neutral (EvCall h c true)) cs = true ->
  keeps P (on_recorder_all env h cs).
Proof.
  induction cs as [|c cs IH]; cbn [on_recorder_all forallb]; intros Hcs.
  - apply keeps_ret.
  - apply andb_prop in Hcs. destruct Hcs as [Hc Hcs].
    apply keeps_bind; [now apply calm_on_recorder | intros; now apply IH].
Qed.

Lemma calm_startForeground id text : keeps P (startForeground env id text).
Proof.
  unfold startForeground.
  apply keeps_bind; [apply calm_platform | intros; now apply calm_emit].
Qed.

Lemma calm_mkdirs f : keeps P (mkdirs f).
Proof.
  unfold mkdirs. apply keeps_bind; [now apply calm_emit | intros _].
  apply keeps_modify. intros w Hw. apply (HP w Hw).
Qed.

Lemma calm_format_now pat : keeps P (format_now env pat).
Proof.
  unfold format_now. apply keeps_bind; [apply keeps_get | intros now].
  destruct (JavaTime.SimpleDateFormat pat now);
    [apply keeps_ret | apply keeps_raise].
Qed.

Lemma calm_string_literal sc body : keeps P (string_literal sc body).
Proof.
  unfold string_literal.
  destruct (Kotlin.eval sc body); [apply keeps_ret | apply keeps_raise].
Qed.

Lemma calm_set_outputFile v : keeps P (modify (set_outputFile v)).
Proof. apply keeps_modify. intros w Hw. apply (HP w Hw). Qed.

Lemma calm_stopBeepTimer : keeps P stopBeepTimer.
Proof.
  unfold stopBeepTimer.
  apply keeps_bind; [apply keeps_get | intros b].
  apply keeps_bind.
  - destruct b as [r|]; [|apply keeps_ret].
    unfold removeCallbacks.
    apply keeps_bind; [now apply calm_emit | intros _].
    apply keeps_modify. intros w Hw. apply (HP w Hw).
  - intros _. apply keeps_modify. intros w Hw. apply (HP w Hw).
Qed.

Lemma calm_postDelayed r d : keeps P (postDelayed r d).
Proof.
  unfold postDelayed.
  apply keeps_bind; [now apply calm_emit | intros _].
  apply keeps_modify. intros w Hw. apply (HP w Hw).
Qed.

Lemma calm_startBeepTimer : keeps P startBeepTimer.
Proof.
  unfold startBeepTimer.
  apply keeps_bind; [apply calm_new_object | intros r].
  apply keeps_bind;
    [apply keeps_modify; intros w Hw; apply (HP w Hw) | intros _].
  apply keeps_bind; [apply keeps_get | intros b].
  destruct b as [r'|]; [apply calm_postDelayed | apply keeps_raise].
Qed.

Lemma calm_run r : keeps P (run r).
Proof.
  unfold run, playBeep.
  apply keeps_bind; [|intros _; apply calm_postDelayed].
  apply keeps_bind; [apply keeps_get | intros t].
  destruct t; [|apply keeps_ret].
  apply keeps_bind; [apply keeps_get | intros now; now apply calm_emit].
Qed.

Lemma calm_onCreate : keeps P (onCreate env).
Proof.
  unfold onCreate, createNotificationChannel.
  apply keeps_bind.
  - destruct (VERSION_CODES_O <=? SDK_INT env)%Z;
      [now apply calm_emit | apply keeps_ret].
  - intros _. apply keeps_bind; [apply calm_platform | intros _].
    apply keeps_bind; [apply calm_new_object | intros t].
    apply keeps_modify. intros w Hw. apply (HP w Hw).
Qed.

(** The looper's own steps cannot disturb a calm assertion. *)
Lemma calm_looper src l w : P w -> P (step env src (looper l) w).
Proof.
  intros Hw. destruct l as [ms| |]; cbn [looper step].
  - apply (HP w Hw).
  - destruct (queue w) as [|[due r] q]; [exact Hw|].
    destruct (due <=? clock w)%Z; [|exact Hw].
    assert (Hq : P (set_queue q w)) by apply (HP w Hw).
    pose proof (calm_run r _ Hq) as H.
    destruct (run r (set_queue q w)) as [[u|e] w']; exact H.
  - destruct (queue w) as [|[due r] q]; [exact Hw|].
    assert (Hc : P (set_clock (Z.max (clock w) due) w)) by apply (HP w Hw).
    assert (Hq : P (set_queue q (set_clock (Z.max (clock w) due) w)))
      by apply (HP _ Hc).
    pose proof (calm_run r _ Hq) as H.
    destruct (run r _) as [[u|e] w']; exact H.
Qed.

End Calm.

Lemma calm_one_recorder : calm one_recorder.
Proof.
  intros w [H1 H2].
  refine (conj _ (conj _ (conj _ (conj _ (conj _ (conj _ (conj _ (conj _ _))))))));
    try (intros; split; assumption); try (split; assumption).
  intros e He. split; [|exact H2].
  cbn [trace log mediaRecorder].
  rewrite held_snoc, neutral_hold by exact He. exact H1.
Qed.

Lemma calm_field_live : calm field_live.
Proof.
  intros w [[H1 H3] H2].
  refine (conj _ (conj _ (conj _ (conj _ (conj _ (conj _ (conj _ (conj _ _))))))));
    try (intros; split; [split|]; assumption).
  - split; [split|]; cbn [trace fresh mediaRecorder set_fresh].
    + exact H1.
    + intros h Hh. apply H3. lia.
    + intros h Hh. destruct (H2 h Hh). split; [assumption | lia].
  - intros e He. split; [split|]; cbn [trace fresh mediaRecorder log].
    + intros h. rewrite releases_snoc, neutral_release by exact He.
      rewrite Nat.add_0_r. apply H1.
    + intros h Hh. rewrite releases_snoc, neutral_release by exact He.
      rewrite Nat.add_0_r. now apply H3.
    + intros h Hh. rewrite releases_snoc, neutral_release by exact He.
      rewrite Nat.add_0_r. now apply H2.
Qed.

(** ** No recorder is released twice *)

Section Release.
Variable env : Env.
Variable src : SourceFile.

Lemma live_field w : field_live w -> released_once w.
Proof. now intros [H _]. Qed.

Lemma field_cleared w :
  released_once w -> field_live (set_mediaRecorder None w).
Proof. intros H. split; [exact H | intros h Hh; discriminate Hh]. Qed.

Lemma keeps_live_set_isRecording v :
  keeps field_live (modify (set_isRecording v)).
Proof. apply keeps_modify. intros w Hw. exact Hw. Qed.

(** A new recorder is one that was never released. *)
Lemma newMediaRecorder_live b :
  triple field_live (newMediaRecorder env b)
    (fun h w => field_live w /\ releases (trace w) h = 0 /\ h < fresh w)%nat
    field_live.
Proof.
  intros w Hw. unfold newMediaRecorder, bind, platform, new_object, emit, modify.
  destruct (throws env (ncalls w) (NewMediaRecorder b)); cbn -[releases].
  - apply (calm_field_live w Hw).
  - destruct Hw as [[H1 H3] H2].
    assert (E : forall h, releases (trace w ++ [EvNew (fresh w)]) h
                          = releases (trace w) h)
      by (intros h; rewrite releases_snoc; cbn; lia).
    repeat split; cbn [trace fresh mediaRecorder log set_fresh set_ncalls].
    + intros h. rewrite E. apply H1.
    + intros h Hh. rewrite E. apply H3. lia.
    + rewrite E. now apply H2.
    + destruct (H2 h H). lia.
    + rewrite E. apply H3. lia.
    + lia.
Qed.

(** [release()] on the recorder in the field: released once if it
    returns, untouched if it throws. *)
Lemma release_once h :
  triple (fun w => field_live w /\ mediaRecorder w = Some h)
    (on_recorder env h release) (fun _ => released_once) field_live.
Proof.
  intros w [Hw Hm]. unfold on_recorder, try_catch, bind, platform, emit, modify.
  destruct (throws env (ncalls w) (OnRecorder h release)); cbn -[releases].
  - pose proof (proj1 (calm_field_live w Hw) (S (ncalls w))) as H1.
    now apply (calm_field_live _ H1).
  - destruct Hw as [[H1 H3] H2]. destruct (H2 h Hm) as [Hr Hf].
    assert (E : forall h', releases (trace w ++ [EvCall h release true]) h'
                           = (releases (trace w) h'
                              + if Nat.eqb h' h then 1 else 0)%nat)
      by (intros h'; now rewrite releases_snoc).
    split; cbn [trace fresh log set_ncalls]; intros h'; rewrite E.
    + destruct (Nat.eqb_spec h' h) as [->|_];
        [rewrite Hr; lia | rewrite Nat.add_0_r; apply H1].
    + intros Hh. destruct (Nat.eqb_spec h' h) as [->|_]; [lia|].
      rewrite Nat.add_0_r. now apply H3.
Qed.

Lemma calm_field_at h :
  calm (fun w => field_live w /\ mediaRecorder w = Some h).
Proof.
  intros w [Hw Hm]. pose proof (calm_field_live w Hw) as H.
  repeat split; try exact Hm; apply H; assumption.
Qed.

Lemma stopRecording_live :
  triple field_live (stopRecording env) (fun _ => field_live) (fun _ => False).
Proof.
  unfold stopRecording.
  eapply triple_try with (X' := field_live).
  - apply keeps_bind;
      [apply calm_stopBeepTimer, calm_field_live | intros ?; cbv beta].
    eapply triple_bind with
      (R := fun m w => field_live w /\ m = mediaRecorder w);
      [apply triple_get; auto | intros m].
    eapply triple_bind with (R := fun _ => released_once).
    + destruct m as [h|].
      * cbn [on_recorder_all].
        eapply triple_weaken with
          (P' := fun w => field_live w /\ mediaRecorder w = Some h)
          (N' := fun _ => released_once) (X' := field_live);
          [| intros w [Hw Hm]; auto | auto | auto].
        eapply triple_bind with
          (R := fun _ w => field_live w /\ mediaRecorder w = Some h).
        { eapply triple_weaken;
            [apply (calm_on_recorder env _ (calm_field_at h) h stop eq_refl)
            | auto | auto | now intros w [Hw _]]. }
        intros ?; cbv beta.
        eapply triple_bind with
          (R := fun _ w => field_live w /\ mediaRecorder w = Some h).
        { eapply triple_weaken;
            [apply (calm_on_recorder env _ (calm_field_at h) h reset eq_refl)
            | auto | auto | now intros w [Hw _]]. }
        intros ?; cbv beta.
        eapply triple_bind; [apply release_once | intros ?; cbv beta].
        apply triple_ret. auto.
      * apply triple_ret. intros w [Hw _]. now apply live_field.
    + intros ?; cbv beta.
      eapply triple_bind with (R := fun _ => field_live).
      { apply triple_modify. intros w Hw. now apply field_cleared. }
      intros ?; cbv beta.
      apply keeps_bind; [apply keeps_live_set_isRecording | intros ?; cbv beta].
      unfold Log_d. now apply calm_emit; [apply calm_field_live|].
  - intros e. unfold Log_e. apply triple_emit.
    intros w Hw. now apply (calm_field_live w Hw).
Qed.

Lemma startRecording_live :
  triple field_live (startRecording env src)
    (fun _ => field_live) (fun _ => False).
Proof.
  pose proof calm_field_live as HC.
  unfold startRecording.
  eapply triple_try with (X' := field_live).
  - apply keeps_bind; [now apply calm_format_now | intros timestamp].
    apply keeps_bind; [apply keeps_exists | intros present].
    apply keeps_bind;
      [destruct (negb present); [now apply calm_mkdirs | apply keeps_ret]
      | intros ?; cbv beta].
    apply keeps_bind; [now apply calm_string_literal | intros fname].
    apply keeps_bind; [now apply calm_set_outputFile | intros ?; cbv beta].
    eapply triple_bind; [apply newMediaRecorder_live | intros h].
    eapply triple_bind with (R := fun _ => field_live).
    { apply triple_modify. intros w ([Ho Hf] & Hr & Hh).
      split; [exact Ho|]. intros h' E. injection E as <-. now split. }
    intros ?; cbv beta.
    apply keeps_bind; [apply keeps_get | intros m].
    apply keeps_bind.
    { destruct m as [h'|]; [|apply keeps_ret].
      apply keeps_bind; [apply keeps_get | intros f].
      now apply calm_on_recorder_all. }
    intros ?; cbv beta.
    apply keeps_bind; [apply keeps_live_set_isRecording | intros ?; cbv beta].
    apply keeps_bind; [now apply calm_startBeepTimer | intros ?; cbv beta].
    apply keeps_bind; [now apply calm_startForeground | intros ?; cbv beta].
    unfold Log_d. now apply calm_emit.
  - intros e. eapply triple_bind with (R := fun _ => field_live).
    + unfold Log_e. apply triple_emit.
      intros w Hw. now apply (calm_field_live w Hw).
    + intros ?; cbv beta. apply stopRecording_live.
Qed.

Lemma onStartCommand_live intent :
  triple field_live (onStartCommand env src intent)
    (fun _ => field_live) (fun _ => False).
Proof.
  unfold onStartCommand.
  eapply triple_bind with (R := fun _ => field_live);
    [| intros _; apply triple_ret; auto].
  destruct (is_case _ _).
  - eapply triple_bind with (R := fun _ => field_live);
      [apply triple_get; auto | intros rec].
    destruct (negb rec); [apply startRecording_live | apply triple_ret; auto].
  - destruct (is_case _ _); [|apply triple_ret; auto].
    eapply triple_bind; [apply stopRecording_live | intros ?; cbv beta].
    unfold stopSelf. apply triple_emit.
    intros w Hw. now apply (calm_field_live w Hw).
Qed.

Lemma step_live s w : field_live w -> field_live (step env src s w).
Proof.
  intros Hw. destruct s as [intent|ms| |].
  - cbn [step]. pose proof (onStartCommand_live intent w Hw) as H.
    destruct (onStartCommand env src intent w) as [[r|e] w'];
      [exact H | destruct H].
  - exact (calm_looper env _ calm_field_live src (Wait ms) w Hw).
  - exact (calm_looper env _ calm_field_live src RunDue w Hw).
  - exact (calm_looper env _ calm_field_live src RunNext w Hw).
Qed.

Lemma exec_live ss w : field_live w -> field_live (exec env src ss w).
Proof.
  revert w. induction ss as [|s ss IH]; intros w Hw; cbn; [exact Hw|].
  apply IH, step_live, Hw.
Qed.

Lemma created_live : field_live (created env).
Proof.
  assert (H0 : field_live new_service).
  { split; [split|]; cbn; intros; try discriminate; reflexivity || lia. }
  pose proof (calm_onCreate env _ calm_field_live new_service H0) as H.
  unfold created. destruct (onCreate env new_service) as [[r|e] w']; exact H.
Qed.

End Release.

(** X10. No recorder is released twice.  Whatever the platform throws
    and whatever commands and looper steps the service goes through,
    every recorder has at most one [release()] that returned, and the
    recorder in the field, if any, has none. *)
Theorem X10_never_released_twice :
  forall env src (ss : list Step) h,
    let w := exec env src ss (created env) in
    (releases (trace w) h <= 1)%nat /\
    (mediaRecorder w = Some h -> releases (trace w) h = 0%nat).
Proof.
  intros env src ss h w.
  assert (Hw : field_live w) by apply exec_live, created_live.
  destruct Hw as [[H1 _] H2]. split; [apply H1|].
  intros Hm. now apply H2.
Qed.

Lemma X10_witness :
  let w := exec no_faults setup_project_py
             [Start setup_project_py; Stop setup_project_py;
              Start setup_project_py] (created no_faults) in
  mediaRecorder w = Some 3 /\ releases (trace w) 3 = 0%nat /\
  releases (trace w) 1 = 1%nat.
Proof.
  pose proof (X10_never_released_twice no_faults setup_project_py
                [Start setup_project_py; Stop setup_project_py;
                 Start setup_project_py] 3) as [_ H].
  split; [reflexivity | split; [exact (H eq_refl) | reflexivity]].
Defined.

(** ** A platform that never throws *)

Lemma calm_recorder_state l m r : calm (recorder_state l m r).
Proof.
  intros w (H1 & H2 & H3).
  refine (conj _ (conj _ (conj _ (conj _ (conj _ (conj _ (conj _ (conj _ _))))))));
    try (intros; repeat split; assumption); try (repeat split; assumption).
  intros e He. repeat split; try assumption.
  cbn [trace log]. rewrite held_snoc, neutral_hold by exact He. exact H1.
Qed.

Lemma triple_pass {A} (P : World -> Prop) (m : M A) :
  keeps P m -> triple P m (fun _ => P) (fun _ => True).
Proof. intros H. eapply triple_weaken; [exact H | auto | auto | auto]. Qed.

Lemma triple_pure {A} (phi : Prop) (P : World -> Prop) (m : M A) N X :
  (phi -> triple P m N X) -> triple (fun w => P w /\ phi) m N X.
Proof. intros H w [Hw Hphi]. now apply H. Qed.

Lemma triple_exists {A T} (P : T -> World -> Prop) (m : M A) N X :
  (forall x, triple (P x) m N X) -> triple (fun w => exists x, P x w) m N X.
Proof. intros H w [x Hw]. now apply (H x). Qed.

Lemma returns_ret {A} (a : A) : returns (ret a).
Proof. intros w. now exists a, w. Qed.

Lemma returns_get {A} (f : World -> A) : returns (get f).
Proof. intros w. now exists (f w), w. Qed.

Lemma returns_modify f : returns (modify f).
Proof. intros w. now exists tt, (f w). Qed.

Lemma returns_emit e : returns (emit e).
Proof. apply returns_modify. Qed.

Lemma returns_new_object : returns new_object.
Proof. intros w. now eexists _, _. Qed.

Lemma returns_bind {A B} (m : M A) (k : A -> M B) :
  returns m -> (forall a, returns (k a)) -> returns (bind m k).
Proof.
  intros Hm Hk w. unfold bind. destruct (Hm w) as (a & w' & E).
  rewrite E. apply Hk.
Qed.

Lemma returns_startBeepTimer : returns startBeepTimer.
Proof. intros w. now eexists _, _. Qed.

Lemma returns_stopBeepTimer : returns stopBeepTimer.
Proof.
  intros w. unfold stopBeepTimer, bind, get.
  destruct (beepRunnable w); now eexists _, _.
Qed.

Lemma returns_mkdirs f : returns (mkdirs f).
Proof. intros w. now eexists _, _. Qed.

(** A guarded computation that returns never reaches its handler. *)
Lemma triple_try_returns {A} P (m : M A) h N :
  returns m -> triple P m N (fun _ => True) ->
  triple P (try_catch m h) N (fun _ => False).
Proof.
  intros Hr Hm w Hw. unfold try_catch. specialize (Hm w Hw).
  destruct (Hr w) as (a & w' & E). rewrite E in Hm |- *. exact Hm.
Qed.

Lemma onStartCommand_start env src :
  onStartCommand env src
    (Some {| action := Some (ACTION_START_RECORDING src) |})
  = ((rec <- get isRecording ;;
      if negb rec then startRecording env src else ret tt) ;;
     ret START_STICKY).
Proof. destruct src; reflexivity. Qed.

Section FaultFree.
Variable env : Env.
Variable src : SourceFile.
Hypothesis no_throw : forall n c, throws env n c = false.

Lemma returns_platform c : returns (platform env c).
Proof.
  intros w. unfold platform. rewrite no_throw. now eexists _, _.
Qed.

Lemma on_recorder_returns h c w :
  on_recorder env h c w
  = (Ret tt, log (EvCall h c true) (set_ncalls (S (ncalls w)) w)).
Proof.
  unfold on_recorder, try_catch, bind, platform, emit, modify.
  now rewrite no_throw.
Qed.

Lemma returns_on_recorder h c : returns (on_recorder env h c).
Proof. intros w. rewrite on_recorder_returns. now eexists _, _. Qed.

Lemma returns_on_recorder_all h cs : returns (on_recorder_all env h cs).
Proof.
  induction cs as [|c cs IH]; cbn [on_recorder_all].
  - apply returns_ret.
  - apply returns_bind; [apply returns_on_recorder | intros _; exact IH].
Qed.

Lemma returns_newMediaRecorder b : returns (newMediaRecorder env b).
Proof.
  unfold newMediaRecorder.
  apply returns_bind; [apply returns_platform | intros _].
  apply returns_bind; [apply returns_new_object | intros h].
  apply returns_bind; [apply returns_emit | intros _; apply returns_ret].
Qed.

Lemma returns_startForeground id text : returns (startForeground env id text).
Proof.
  unfold startForeground.
  apply returns_bind; [apply returns_platform | intros _; apply returns_emit].
Qed.

Lemma returns_format_now : returns (format_now env "yyyyMMdd_HHmmss").
Proof.
  intros w. unfold format_now, bind, get. rewrite format_pattern.
  now eexists _, _.
Qed.

Lemma returns_outputFile_literal ts :
  returns (string_literal [("timestamp", ts)] (outputFile_literal src)).
Proof.
  unfold string_literal.
  destruct src;
    [rewrite literal_first_script | rewrite literal_second_script];
    apply returns_ret.
Qed.

(** A recorder is constructed and held. *)
Lemma newMediaRecorder_state b l m r :
  triple (recorder_state l m r) (newMediaRecorder env b)
    (fun h => recorder_state (l ++ [h]) m r) (fun _ => True).
Proof.
  intros w (H1 & H2 & H3).
  unfold newMediaRecorder, bind, platform, new_object, emit, modify.
  rewrite no_throw. cbn -[held].
  repeat split; try assumption.
  cbn [trace log set_fresh set_ncalls]. now rewrite held_snoc, H1.
Qed.

(** [release()] returns and the recorder is no longer held. *)
Lemma release_state h l m r :
  triple (recorder_state l m r) (on_recorder env h release)
    (fun _ => recorder_state (filter (fun x => negb (Nat.eqb x h)) l) m r)
    (fun _ => True).
Proof.
  intros w (H1 & H2 & H3). rewrite on_recorder_returns.
  repeat split; try assumption.
  cbn [trace log set_ncalls]. now rewrite held_snoc, H1.
Qed.

Lemma startRecording_state l m r :
  triple (recorder_state l m r) (startRecording env src)
    (fun _ w => exists h, recorder_state (l ++ [h]) (Some h) true w)
    (fun _ => False).
Proof.
  unfold startRecording. apply triple_try_returns.
  - apply returns_bind; [apply returns_format_now | intros ts].
    apply returns_bind; [apply returns_get | intros present].
    apply returns_bind;
      [destruct (negb present); [apply returns_mkdirs | apply returns_ret]
      | intros _].
    apply returns_bind; [apply returns_outputFile_literal | intros fname].
    apply returns_bind; [apply returns_modify | intros _].
    apply returns_bind; [apply returns_newMediaRecorder | intros h].
    apply returns_bind; [apply returns_modify | intros _].
    apply returns_bind; [apply returns_get | intros m'].
    apply returns_bind.
    { destruct m'; [|apply returns_ret].
      apply returns_bind;
        [apply returns_get | intros; apply returns_on_recorder_all]. }
    intros ?; cbv beta.
    apply returns_bind; [apply returns_modify | intros _].
    apply returns_bind; [apply returns_startBeepTimer | intros _].
    apply returns_bind; [apply returns_startForeground | intros _].
    apply returns_emit.
  - pose proof (calm_recorder_state l m r) as HC.
    eapply triple_bind;
      [apply triple_pass; now apply calm_format_now | intros ts; cbv beta].
    eapply triple_bind;
      [apply triple_pass, keeps_exists | intros present; cbv beta].
    eapply triple_bind with (R := fun _ => recorder_state l m r).
    { apply triple_pass.
      destruct (negb present); [now apply calm_mkdirs | apply keeps_ret]. }
    intros ?; cbv beta.
    eapply triple_bind;
      [apply triple_pass; now apply calm_string_literal
      | intros fname; cbv beta].
    eapply triple_bind;
      [apply triple_pass; now apply calm_set_outputFile | intros ?; cbv beta].
    eapply triple_bind; [apply newMediaRecorder_state | intros h; cbv beta].
    pose proof (calm_recorder_state (l ++ [h]) (Some h) r) as HC2.
    pose proof (calm_recorder_state (l ++ [h]) (Some h) true) as HC3.
    eapply triple_weaken with
      (P' := recorder_state (l ++ [h]) m r)
      (N' := fun _ => recorder_state (l ++ [h]) (Some h) true)
      (X' := fun _ => True);
      [| auto | intros ? w Hw; now exists h | auto].
    eapply triple_bind with
      (R := fun _ => recorder_state (l ++ [h]) (Some h) r).
    { apply triple_modify. intros w (H1 & H2 & H3).
      repeat split; assumption. }
    intros ?; cbv beta.
    eapply triple_bind;
      [apply triple_pass, keeps_get | intros m'; cbv beta].
    eapply triple_bind with
      (R := fun _ => recorder_state (l ++ [h]) (Some h) r).
    { apply triple_pass. destruct m' as [h'|]; [|apply keeps_ret].
      apply keeps_bind; [apply keeps_get | intros f].
      now apply calm_on_recorder_all. }
    intros ?; cbv beta.
    eapply triple_bind with
      (R := fun _ => recorder_state (l ++ [h]) (Some h) true).
    { apply triple_modify. intros w (H1 & H2 & H3).
      repeat split; assumption. }
    intros ?; cbv beta.
    eapply triple_bind;
      [apply triple_pass; now apply calm_startBeepTimer
      | intros ?; cbv beta].
    eapply triple_bind;
      [apply triple_pass; now apply calm_startForeground
      | intros ?; cbv beta].
    unfold Log_d. apply triple_pass. now apply calm_emit.
Qed.

Lemma stopRecording_state l m r :
  triple (recorder_state l m r) (stopRecording env)
    (fun _ =>
       recorder_state
         match m with
         | Some h => filter (fun x => negb (Nat.eqb x h)) l
         | None => l
         end None false)
    (fun _ => False).
Proof.
  pose proof (calm_recorder_state l m r) as HC.
  unfold stopRecording. apply triple_try_returns.
  - apply returns_bind; [apply returns_stopBeepTimer | intros _].
    apply returns_bind; [apply returns_get | intros m'].
    apply returns_bind;
      [destruct m'; [apply returns_on_recorder_all | apply returns_ret]
      | intros _].
    apply returns_bind; [apply returns_modify | intros _].
    apply returns_bind; [apply returns_modify | intros _].
    apply returns_emit.
  - eapply triple_bind;
      [apply triple_pass; now apply calm_stopBeepTimer | intros ?; cbv beta].
    eapply triple_bind with
      (R := fun m' w => recorder_state l m r w /\ m' = m).
    { apply triple_get. intros w Hw. split; [exact Hw | apply Hw]. }
    intros m'. apply triple_pure. intros ->.
    set (l' := match m with
               | Some h => filter (fun x => negb (Nat.eqb x h)) l
               | None => l
               end).
    eapply triple_bind with (R := fun _ => recorder_state l' m r).
    { destruct m as [h|]; [|apply triple_ret; auto].
      cbn [on_recorder_all].
      eapply triple_bind;
        [apply triple_pass;
         exact (calm_on_recorder env _ HC h stop eq_refl)
        | intros ?; cbv beta].
      eapply triple_bind;
        [apply triple_pass;
         exact (calm_on_recorder env _ HC h reset eq_refl)
        | intros ?; cbv beta].
      eapply triple_bind; [apply release_state | intros ?; cbv beta].
      apply triple_ret. auto. }
    intros ?; cbv beta.
    eapply triple_bind with (R := fun _ => recorder_state l' None r).
    { apply triple_modify. intros w (H1 & H2 & H3).
      repeat split; assumption. }
    intros ?; cbv beta.
    eapply triple_bind with (R := fun _ => recorder_state l' None false).
    { apply triple_modify. intros w (H1 & H2 & H3).
      repeat split; assumption. }
    intros _. unfold Log_d. apply triple_pass.
    now apply calm_emit; [apply calm_recorder_state|].
Qed.

Lemma one_recorder_state w :
  one_recorder w ->
  exists m, recorder_state
              match m with Some h => [h] | None => [] end
              m (isRecording w) w.
Proof.
  intros [H1 H2]. exists (mediaRecorder w). repeat split. exact H1.
Qed.

Lemma state_one_recorder m r w :
  (r = true <-> m <> None) ->
  recorder_state match m with Some h => [h] | None => [] end m r w ->
  one_recorder w.
Proof.
  intros Hr (H1 & H2 & H3). split; rewrite H2; [exact H1|].
  now rewrite H3.
Qed.

(** Not recording, startRecording ends recording with its recorder. *)
Lemma startRecording_records :
  triple (fun w => one_recorder w /\ isRecording w = false)
    (startRecording env src)
    (fun _ w => one_recorder w /\ isRecording w = true) (fun _ => False).
Proof.
  eapply triple_weaken with (P' := recorder_state [] None false);
    [apply startRecording_state | | | auto].
  - intros w [[H1 H2] Hr].
    assert (Hm : mediaRecorder w = None).
    { destruct (mediaRecorder w) eqn:E; [|reflexivity].
      assert (isRecording w = true) by (apply H2; discriminate).
      congruence. }
    rewrite Hm in H1. repeat split; assumption.
  - intros _ w [h Hs]. split; [|apply Hs].
    apply (state_one_recorder (Some h) true); [|exact Hs].
    split; [discriminate | reflexivity].
Qed.

(** stopRecording ends not recording, with nothing held. *)
Lemma stopRecording_idles :
  triple one_recorder (stopRecording env)
    (fun _ w => one_recorder w /\ isRecording w = false) (fun _ => False).
Proof.
  intros w Hw. destruct (one_recorder_state w Hw) as [m Hs].
  pose proof (stopRecording_state _ m _ w Hs) as H.
  destruct (stopRecording env w) as [[u|e] w']; [|exact H].
  assert (Hs' : recorder_state [] None false w').
  { destruct m as [h|]; [|exact H].
    cbn in H. now rewrite Nat.eqb_refl in H. }
  split; [|apply Hs'].
  apply (state_one_recorder None false); [|exact Hs'].
  split; [discriminate | intros H'; now destruct H'].
Qed.

Lemma onStartCommand_one_recorder intent :
  triple one_recorder (onStartCommand env src intent)
    (fun _ => one_recorder) (fun _ => False).
Proof.
  unfold onStartCommand.
  eapply triple_bind with (R := fun _ => one_recorder);
    [| intros _; apply triple_ret; auto].
  destruct (is_case _ _).
  - eapply triple_bind with
      (R := fun rec w => one_recorder w /\ rec = isRecording w);
      [apply triple_get; auto | intros rec].
    destruct rec; cbn [negb]; [apply triple_ret; tauto|].
    eapply triple_weaken; [apply startRecording_records | | | auto].
    + intros w [Hw Hr]. split; [exact Hw | now symmetry].
    + now intros _ w [Hw _].
  - destruct (is_case _ _); [|apply triple_ret; auto].
    eapply triple_bind with (R := fun _ => one_recorder).
    + eapply triple_weaken; [apply stopRecording_idles | auto | | auto].
      now intros _ w [Hw _].
    + intros _. unfold stopSelf. apply triple_emit.
      intros w Hw. now apply (calm_one_recorder w Hw).
Qed.

Lemma step_one_recorder s w :
  one_recorder w -> one_recorder (step env src s w).
Proof.
  intros Hw. destruct s as [intent|ms| |].
  - cbn [step]. pose proof (onStartCommand_one_recorder intent w Hw) as H.
    destruct (onStartCommand env src intent w) as [[r|e] w'];
      [exact H | destruct H].
  - exact (calm_looper env _ calm_one_recorder src (Wait ms) w Hw).
  - exact (calm_looper env _ calm_one_recorder src RunDue w Hw).
  - exact (calm_looper env _ calm_one_recorder src RunNext w Hw).
Qed.

Lemma exec_one_recorder ss w :
  one_recorder w -> one_recorder (exec env src ss w).
Proof.
  revert w. induction ss as [|s ss IH]; intros w Hw; cbn; [exact Hw|].
  apply IH, step_one_recorder, Hw.
Qed.

Lemma created_one_recorder : one_recorder (created env).
Proof.
  assert (H0 : one_recorder new_service).
  { split; [reflexivity|]. split; [discriminate | intros H; now destruct H]. }
  pose proof (calm_onCreate env _ calm_one_recorder new_service H0) as H.
  unfold created. destruct (onCreate env new_service) as [[r|e] w']; exact H.
Qed.

(** A Start and a Stop command, each with its effect on the flag. *)
Lemma Start_records w :
  one_recorder w -> isRecording w = false ->
  one_recorder (step env src (Start src) w) /\
  isRecording (step env src (Start src) w) = true.
Proof.
  intros Hw Hr.
  assert (E : step env src (Start src) w = snd (startRecording env src w)).
  { unfold Start. cbn [step]. rewrite onStartCommand_start.
    unfold bind, get. rewrite Hr. cbn [negb].
    destruct (startRecording env src w) as [[u|e] w']; reflexivity. }
  rewrite E.
  pose proof (startRecording_records w (conj Hw Hr)) as H.
  destruct (startRecording env src w) as [[u|e] w']; [exact H | destruct H].
Qed.

Lemma Stop_idles w :
  one_recorder w ->
  one_recorder (step env src (Stop src) w) /\
  isRecording (step env src (Stop src) w) = false.
Proof.
  intros Hw.
  pose proof (stopRecording_idles w Hw) as H.
  assert (E : step env src (Stop src) w
              = match stopRecording env w with
                | (Ret _, w') => log EvStopSelf w'
                | (Raise _, w') => w'
                end).
  { unfold Stop. cbn [step]. rewrite onStartCommand_stop.
    unfold bind, stopSelf, emit, modify, ret.
    destruct (stopRecording env w) as [[u|e] w']; reflexivity. }
  rewrite E.
  destruct (stopRecording env w) as [[u|e] w']; [|destruct H].
  destruct H as [H1 Hr]. split; [|exact Hr].
  now apply (calm_one_recorder w' H1).
Qed.

Lemma alternating_run n : forall w r,
  one_recorder w -> isRecording w = r ->
  one_recorder (exec env src (alternating src r n) w) /\
  isRecording (exec env src (alternating src r n) w) = xorb r (Nat.odd n).
Proof.
  induction n as [|n IH]; intros w r Hw Hr.
  - cbn. split; [exact Hw | now rewrite Hr, xorb_false_r].
  - change (exec env src (alternating src r (S n)) w)
      with (exec env src (alternating src (negb r) n)
              (step env src (if r then Stop src else Start src) w)).
    assert (H : one_recorder
                  (step env src (if r then Stop src else Start src) w) /\
                isRecording
                  (step env src (if r then Stop src else Start src) w)
                = negb r).
    { destruct r; [now apply Stop_idles | now apply Start_records]. }
    destruct H as [Hw' Hr'].
    destruct (IH _ _ Hw' Hr') as [H1 H2]. split; [exact H1|].
    rewrite H2, Nat.odd_succ, <- Nat.negb_odd.
    now destruct r, (Nat.odd n).
Qed.

End FaultFree.

(** X11. On a platform that never throws, the service holds exactly the
    recorder its field refers to and is recording exactly when it holds
    one, after any sequence of commands and looper steps. *)
Theorem X11_fault_free_one_recorder :
  forall env src (ss : list Step),
    (forall n c, throws env n c = false) ->
    let w := exec env src ss (created env) in
    held (trace w) = match mediaRecorder w with
                     | Some h => [h]
                     | None => []
                     end /\
    (isRecording w = true <-> mediaRecorder w <> None).
Proof.
  intros env src ss Hnf.
  exact (exec_one_recorder env src Hnf ss _ (created_one_recorder env)).
Qed.

Lemma X11_witness :
  (forall n c, throws no_faults n c = false) /\
  let w := exec no_faults setup_project_2_py
             [Start setup_project_2_py; Next; Start setup_project_2_py;
              Stop setup_project_2_py; Start setup_project_2_py]
             (created no_faults) in
  held (trace w) = [3] /\ mediaRecorder w = Some 3.
Proof.
  assert (H : forall n c, throws no_faults n c = false) by reflexivity.
  split; [exact H|].
  pose proof (X11_fault_free_one_recorder no_faults setup_project_2_py
                [Start setup_project_2_py; Next; Start setup_project_2_py;
                 Stop setup_project_2_py; Start setup_project_2_py] H)
    as [H1 _].
  split; [exact H1 | reflexivity].
Defined.

(** X12. Activity and service stay in step when nothing fails: with
    the permissions granted and a platform that never throws, after n
    presses of the record button, delivered in order to a fresh service,
    the service is recording exactly when the activity believes so, and
    holds one recorder when it is and none when it is not. *)
Theorem X12_activity_and_service_agree :
  forall env granted src n,
    (forall k c, throws env k c = false) ->
    forallb granted MainActivity.REQUIRED_PERMISSIONS = true ->
    let a := MainActivity.exec granted src
               (MainActivity.Create :: repeat MainActivity.PressRecord n)
               MainActivity.new_activity in
    let w := exec env src (MainActivity.commands (MainActivity.out a))
               (created env) in
    isRecording w = MainActivity.isRecording a /\
    held (trace w) = match mediaRecorder w with
                     | Some h => [h]
                     | None => []
                     end /\
    (isRecording w = true <-> mediaRecorder w <> None).
Proof.
  intros env granted src n Hnf Hg a w.
  destruct (granted_presses granted src n Hg) as [Hc Hr].
  fold a in Hc, Hr. unfold w. rewrite Hc, Hr.
  assert (H0 : isRecording (created env) = false).
  { pose proof (calm_onCreate env _ (calm_recorder_state [] None false)
                  new_service) as H.
    unfold created.
    destruct (onCreate env new_service) as [[r|e] w']; apply H;
      repeat split. }
  destruct (alternating_run env src Hnf n (created env) false
              (created_one_recorder env) H0) as [H1 H2].
  split; [exact H2 | exact H1].
Qed.

Lemma X12_witness :
  (forall k c, throws no_faults k c = false) /\
  forallb (fun _ => true) MainActivity.REQUIRED_PERMISSIONS = true /\
  let a := MainActivity.exec (fun _ => true) setup_project_2_py
             (MainActivity.Create :: repeat MainActivity.PressRecord 3)
             MainActivity.new_activity in
  let w := exec no_faults setup_project_2_py
             (MainActivity.commands (MainActivity.out a))
             (created no_faults) in
  isRecording w = true /\ MainActivity.isRecording a = true.
Proof.
  assert (H : forall k c, throws no_faults k c = false) by reflexivity.
  split; [exact H | split; [reflexivity|]].
  pose proof (X12_activity_and_service_agree no_faults (fun _ => true)
                setup_project_2_py 3 H eq_refl) as [H1 _].
  split; [rewrite H1; reflexivity | reflexivity].
Defined.

(** ** Installer: paths *)

Section Paths.
Import Installer.

Lemma is_slash_eq c : is_slash c = true -> c = "/"%char.
Proof. apply Ascii.eqb_eq. Qed.

Lemma split_nonempty l : split l <> [].
Proof.
  destruct l as [|c l]; cbn; [discriminate|].
  destruct (is_slash c); [discriminate|].
  destruct (split l); discriminate.
Qed.

Lemma split_app_slash a b :
  split (a ++ "/"%char :: b) = (split a ++ split b)%list.
Proof.
  induction a as [|c a IH]; cbn [app split].
  - reflexivity.
  - rewrite IH. destruct (is_slash c); [reflexivity|].
    destruct (split a) eqn:E; [|reflexivity].
    now apply split_nonempty in E.
Qed.

Lemma split_no_slash l : existsb is_slash l = false -> split l = [l].
Proof.
  induction l as [|c l IH]; cbn; intros H; [reflexivity|].
  apply orb_false_iff in H as [Hc Hl].
  rewrite Hc, (IH Hl). reflexivity.
Qed.

Lemma head_no_slash l : existsb is_slash l = false -> head l = [].
Proof. destruct l; [reflexivity|]. intros H. cbn [head]. now rewrite H. Qed.

Lemma no_slash_name t :
  existsb is_slash t = false -> string_of_list_ascii t <> "/".
Proof.
  intros Ht Hx. apply (f_equal list_ascii_of_string) in Hx.
  rewrite list_ascii_of_string_of_list_ascii in Hx. now subst t.
Qed.

(** The characters of a path around its last slash. *)
Lemma last_slash l :
  existsb is_slash l = true ->
  exists a t, l = (a ++ "/"%char :: t)%list /\ existsb is_slash t = false /\
              head l = (a ++ ["/"%char])%list.
Proof.
  induction l as [|c l IH]; [discriminate|].
  intros H. cbn [head]. rewrite H.
  destruct (existsb is_slash l) eqn:E.
  - destruct (IH eq_refl) as (a & t & -> & Ht & Hh).
    exists (c :: a), t. rewrite Hh. auto.
  - cbn in H. rewrite E, orb_false_r in H. apply is_slash_eq in H as ->.
    exists [], l. rewrite (head_no_slash _ E). auto.
Qed.

Lemma slashes l : forallb is_slash l = true -> l = repeat "/"%char (List.length l).
Proof.
  induction l as [|c l IH]; cbn; intros H; [reflexivity|].
  apply andb_true_iff in H as [Hc Hl].
  apply is_slash_eq in Hc as ->. now rewrite <- (IH Hl).
Qed.

Lemma rstrip_spec l : exists n, l = (rstrip l ++ repeat "/"%char n)%list.
Proof.
  induction l as [|c l [n IH]]; [now exists 0|].
  cbn [rstrip]. destruct (forallb is_slash (c :: l)) eqn:E.
  - exists (List.length (c :: l)). now apply slashes.
  - exists n. cbn. now rewrite <- IH.
Qed.

Lemma rstrip_absolute l :
  forallb is_slash l = false -> absolute (rstrip l) = absolute l.
Proof. destruct l; [reflexivity|]. intros H. cbn [rstrip]. now rewrite H. Qed.

Lemma components_app_slash a b :
  components (a ++ "/"%char :: b) = (components a ++ components b)%list.
Proof.
  unfold components. now rewrite split_app_slash, filter_app, map_app.
Qed.

Lemma components_slashes n : components (repeat "/"%char n) = [].
Proof.
  induction n as [|n IH]; [reflexivity|].
  change (repeat "/"%char (S n)) with ([] ++ "/"%char :: repeat "/"%char n)%list.
  now rewrite components_app_slash, IH.
Qed.

Lemma components_trailing l n :
  components (l ++ repeat "/"%char n) = components l.
Proof.
  destruct n as [|n]; cbn [repeat]; [now rewrite app_nil_r|].
  now rewrite components_app_slash, components_slashes, app_nil_r.
Qed.

Lemma components_rstrip l : components (rstrip l) = components l.
Proof.
  destruct (rstrip_spec l) as [n H].
  rewrite H at 2. now rewrite components_trailing.
Qed.

Lemma climbs_app_slash a b :
  existsb dotdot (split (a ++ "/"%char :: b)) =
  existsb dotdot (split a) || existsb dotdot (split b).
Proof. now rewrite split_app_slash, existsb_app. Qed.

Lemma climbs_slashes n : existsb dotdot (split (repeat "/"%char n)) = false.
Proof.
  induction n as [|n IH]; [reflexivity|].
  change (repeat "/"%char (S n)) with ([] ++ "/"%char :: repeat "/"%char n)%list.
  now rewrite climbs_app_slash, IH.
Qed.

Lemma climbs_rstrip l :
  existsb dotdot (split (rstrip l)) = existsb dotdot (split l).
Proof.
  destruct (rstrip_spec l) as [[|n] H]; rewrite H at 2; cbn [repeat].
  - now rewrite app_nil_r.
  - now rewrite climbs_app_slash, climbs_slashes, orb_false_r.
Qed.

(** [dirname] resolves to the directory the path lies in: the path's
    key is the key of its [dirname], followed by the name after the last
    slash when that is a proper name. *)
Lemma key_dirname p :
  exists r, key p = (key (dirname p) ++ r)%list /\
    (names_directory p = false -> exists x, r = [x] /\ x <> "/") /\
    (climbs p = false -> climbs (dirname p) = false).
Proof.
  unfold key, dirname, names_directory, climbs.
  rewrite list_ascii_of_string_of_list_ascii.
  set (l := list_ascii_of_string p).
  destruct (existsb is_slash l) eqn:E.
  - destruct (last_slash l E) as (a & t & Hl & Ht & Hh).
    rewrite Hh, Hl.
    assert (Hc : components (a ++ ["/"%char]) = components a).
    { now rewrite components_app_slash, app_nil_r. }
    assert (Hd : existsb dotdot (split (a ++ ["/"%char])) =
                 existsb dotdot (split a)).
    { now rewrite climbs_app_slash, orb_false_r. }
    exists (components t).
    rewrite components_app_slash, climbs_app_slash, split_app_slash, rev_app_distr.
    rewrite (split_no_slash t Ht). cbn [rev app].
    assert (Ha : absolute (a ++ "/"%char :: t) = absolute (a ++ ["/"%char])).
    { destruct a; reflexivity. }
    split; [|split].
    + rewrite Ha.
      destruct (forallb is_slash (a ++ ["/"%char])) eqn:F.
      * now rewrite Hc, app_assoc.
      * now rewrite components_rstrip, Hc, rstrip_absolute, app_assoc.
    + intros Hp. apply negb_false_iff in Hp.
      unfold components. rewrite (split_no_slash t Ht). cbn. rewrite Hp.
      cbn. eexists. split; [reflexivity|]. now apply no_slash_name.
    + intros Hp. apply orb_false_iff in Hp as [Hp _].
      destruct (forallb is_slash (a ++ ["/"%char])).
      * now rewrite Hd.
      * now rewrite climbs_rstrip, Hd.
  - rewrite (head_no_slash l E). cbn [forallb absolute app].
    assert (Ha : absolute l = false).
    { destruct l as [|c l']; [reflexivity|]. cbn in E |- *.
      now apply orb_false_iff in E as [-> _]. }
    rewrite Ha. cbn [app].
    exists (components l). split; [reflexivity|split; [|reflexivity]].
    rewrite (split_no_slash l E). cbn [rev app]. intros Hp.
    apply negb_false_iff in Hp.
    unfold components. rewrite (split_no_slash l E). cbn. rewrite Hp.
    cbn. eexists. split; [reflexivity|]. now apply no_slash_name.
Qed.

Lemma dirname_no_slash p :
  existsb is_slash (list_ascii_of_string p) = false -> dirname p = EmptyString.
Proof. intros H. unfold dirname. now rewrite (head_no_slash _ H). Qed.

End Paths.
(** ** Installer: the file tree *)

Section Tree.
Import Installer.
Local Open Scope list_scope.
Local Open Scope py_scope.

Lemma is_prefix_spec k' : forall k,
  is_prefix k' k = true <-> exists r, k = (k' ++ r)%list.
Proof.
  induction k' as [|x k' IH]; intros k; cbn.
  - split; eauto.
  - destruct k as [|y k].
    + split; [discriminate|]. intros [r H]. discriminate.
    + rewrite andb_true_iff, String.eqb_eq, IH. split.
      * intros [-> [r ->]]. now exists r.
      * intros [r H]. injection H as -> ->. eauto.
Qed.

Lemma is_prefix_refl k : is_prefix k k = true.
Proof. apply is_prefix_spec. exists []. now rewrite app_nil_r. Qed.

Lemma is_prefix_app k' k r :
  is_prefix k' k = true -> is_prefix k' (k ++ r) = true.
Proof.
  rewrite !is_prefix_spec. intros [r0 ->]. exists (r0 ++ r)%list.
  now rewrite app_assoc.
Qed.



Lemma between_cons done c rest k' :
  between done (c :: rest) k' <->
  k' = (done ++ [c])%list \/ between (done ++ [c]) rest k'.
Proof.
  split.
  - intros (r1 & r2 & Hne & H & ->).
    destruct r1 as [|c' r1]; [now elim Hne|].
    injection H as <- ->.
    destruct r1 as [|c1 r1]; [now left|right].
    exists (c1 :: r1), r2. repeat split; [discriminate|].
    now rewrite <- app_assoc.
  - intros [->|(r1 & r2 & Hne & -> & ->)].
    + exists [c], rest. repeat split. discriminate.
    + exists (c :: r1), r2. repeat split; [discriminate|].
      now rewrite <- app_assoc.
Qed.

Lemma between_prefix k k' :
  between [] k k' <-> k' <> [] /\ is_prefix k' k = true.
Proof.
  rewrite is_prefix_spec. split.
  - intros (r1 & r2 & Hne & -> & ->). eauto.
  - intros [Hne [r ->]]. now exists k', r.
Qed.








(** [os.makedirs] touches nothing but the directories it is asked for. *)
Lemma mkdirs_frame mode rest : forall f done f',
  mkdirs f mode done rest = inr f' ->
  forall k', ~ between done rest k' -> f' k' = f k'.
Proof.
  induction rest as [|c rest IH]; intros f done f' H k' Hk; cbn [mkdirs] in H.
  - now injection H as <-.
  - destruct (lookup f (done ++ [c])) as [[m|d m]|] eqn:E.
    + apply (IH _ _ _ H). intros B. apply Hk, between_cons. now right.
    + discriminate.
    + rewrite (IH _ _ _ H k').
      * unfold update. destruct list_eq_dec as [->|]; [|reflexivity].
        exfalso. apply Hk, between_cons. now left.
      * intros B. apply Hk, between_cons. now right.
Qed.






Lemma proper_prefix k' k :
  is_prefix k' (removelast k) = true -> k <> [] ->
  is_prefix k' k = true /\ k' <> k.
Proof.
  intros B Hne. destruct k as [|x k] using rev_ind; [now elim Hne|].
  rewrite removelast_last in B. split; [now apply is_prefix_app|].
  intros ->. apply is_prefix_spec in B as [r B].
  apply (f_equal (@List.length string)) in B.
  rewrite !length_app in B. cbn in B. lia.
Qed.



End Tree.
(** ** Installer: the helpers *)

Section Helpers.
Import Installer.
Local Open Scope list_scope.
Local Open Scope py_scope.


Lemma seq_done {A B} (m : Py A) (k : A -> Py B) h a h1 :
  m h = (Done a, h1) -> seq m k h = k a h1.
Proof. intros H. unfold seq. now rewrite H. Qed.

Lemma seq_raised {A B} (m : Py A) (k : A -> Py B) h e h1 :
  m h = (Raised e, h1) -> seq m k h = (Raised e, h1).
Proof. intros H. unfold seq. now rewrite H. Qed.








(** Whatever [write_file] is given and however it ends, it touches the
    path and the directories above it, nothing else. *)
Lemma write_file_frame src path content is_binary h k' :
  is_prefix k' (key path) = false ->
  fs (snd (write_file src path content is_binary h)) k' = fs h k'.
Proof.
  intros P.
  destruct (key_dirname path) as (r & Hk & _ & _).
  assert (Hmk : fs (snd (create_directory src (dirname path) h)) k' = fs h k').
  { assert (Hm : forall msg,
      fs (snd ((makedirs (dirname path) ;; print msg) h)) k' = fs h k').
    { intros msg. unfold seq, makedirs.
      destruct (String.eqb (dirname path) EmptyString); [reflexivity|].
      destruct (climbs (dirname path)); [reflexivity|].
      destruct (mkdirs _ _ _ _) as [e|f'] eqn:E; [reflexivity|]. cbn.
      apply (mkdirs_frame _ _ _ _ _ E). intros B.
      apply between_prefix in B as [_ B].
      rewrite Hk in P. apply (is_prefix_app _ _ r) in B. congruence. }
    destruct src; unfold create_directory; [apply Hm|].
    destruct (negb _ && negb _); [apply Hm|reflexivity]. }
  assert (Hup : forall f n, update f (key path) n k' = f k').
  { intros f n. unfold update.
    destruct list_eq_dec as [->|_]; [now rewrite is_prefix_refl in P|auto]. }
  unfold write_file, seq at 1.
  destruct (create_directory src (dirname path) h) as [[[]|e] h1];
    cbn [snd] in *; [|exact Hmk].
  rewrite <- Hmk.
  assert (Hop : forall mode,
    fs (snd (open path mode h1)) k' = fs h1 k' /\
    forall f h2, open path mode h1 = (Done f, h2) -> target f = key path).
  { intros mode. unfold open.
    destruct (String.eqb path EmptyString);
      [split; [reflexivity|discriminate]|].
    destruct (climbs path); [split; [reflexivity|discriminate]|].
    cbn zeta.
    destruct (stat _ _) as [[?|? ?]| |];
      try (split; [reflexivity|discriminate]).
    destruct (lookup (fs h1) (key path)) as [[?|? ?]|];
      try (split; [reflexivity|discriminate]);
      destruct (names_directory path);
      try (split; [reflexivity|discriminate]);
      (split; [apply Hup|intros f h2 [= <- _]; reflexivity]). }
  unfold seq at 1.
  destruct (Hop (if is_binary then wb else w)) as [Hfs Htg].
  destruct (open path _ h1) as [[f|e] h2] eqn:Eo; cbn [snd] in *;
    [|exact Hfs].
  rewrite <- Hfs. specialize (Htg f h2 eq_refl).
  unfold seq, write, print. rewrite Htg.
  destruct (mode_of f), content;
    try reflexivity;
    destruct (lookup (fs h2) (key path)) as [[?|? ?]|]; cbn; auto.
Qed.

End Helpers.
(** ** Installer: a whole run *)

Section Run.
Import Installer.
Local Open Scope list_scope.
Local Open Scope py_scope.

Lemma write_file_no_directory path content is_binary h :
  existsb is_slash (list_ascii_of_string path) = false ->
  write_file setup_project_py path content is_binary h =
    (Raised FileNotFoundError, h).
Proof.
  intros H. unfold write_file. now rewrite (dirname_no_slash _ H).
Qed.

Lemma raises_seq_done {A B} (m : Py A) (k : A -> Py B) h a h1 Q :
  m h = (Done a, h1) -> raises (k a) h1 Q -> raises (seq m k) h Q.
Proof. intros E. unfold raises. now rewrite (seq_done _ _ _ _ _ E). Qed.

Lemma raises_seq_raised {A B} (m : Py A) (k : A -> Py B) h Q :
  raises m h Q -> raises (seq m k) h Q.
Proof.
  intros (e & h1 & E & H). exists e, h1.
  now rewrite (seq_raised _ _ _ _ _ E).
Qed.

Lemma listed_in p : listed p = true -> In p written.
Proof.
  unfold listed. rewrite existsb_exists.
  intros (q & Hq & E). now apply String.eqb_eq in E as ->.
Qed.


Lemma written_apart p q :
  In p written -> In q written -> p <> q -> apart p q = true.
Proof.
  intros Hp Hq Hne.
  assert (H : forallb (fun p => forallb (fun q =>
                String.eqb p q || apart p q) written) written = true).
  { vm_compute. reflexivity. }
  rewrite forallb_forall in H. specialize (H p Hp).
  rewrite forallb_forall in H. specialize (H q Hq).
  apply orb_true_iff in H as [H|H]; [|exact H].
  now apply String.eqb_eq in H.
Qed.

Lemma apart_spec p q :
  apart p q = true ->
  is_prefix (key p) (key q) = false /\ is_prefix (key q) (key p) = false.
Proof.
  unfold apart. now rewrite andb_true_iff, !negb_true_iff.
Qed.


Section Staged.
Variable text : string -> string.








End Staged.


Lemma written_not_above_first p :
  In p written -> p <> ".github/workflows/build-apk.yml"%string ->
  is_prefix (key p) (key ".github/workflows/build-apk.yml") = false.
Proof.
  intros Hp Hne. apply (written_apart _ _ Hp) in Hne.
  - now apply apart_spec in Hne.
  - now apply listed_in.
Qed.

(** The first script stops at [settings.gradle]: whether or not the
    workflow file could be written, the next [write_file] raises. *)
Lemma main_first_raises text h :
  raises (main setup_project_py text) h (fun h' =>
    forall p, In p written -> p <> ".github/workflows/build-apk.yml"%string ->
              fs h' (key p) = fs h (key p)).
Proof.
  unfold main. cbv zeta.
  do 4 (eapply raises_seq_done; [reflexivity|]).
  apply raises_seq_raised. unfold files. cbn [for_each].
  match goal with
  | |- raises (seq ?m _) ?h0 _ =>
      pose proof (fun k' => write_file_frame setup_project_py
        ".github/workflows/build-apk.yml"
        (Str (text ".github/workflows/build-apk.yml")) false h0 k') as F;
      destruct (m h0) as [[[]|e] h1] eqn:E
  end; cbn [snd fs] in F.
  - eapply raises_seq_done; [exact E|]. apply raises_seq_raised.
    exists FileNotFoundError, h1. split.
    + now apply write_file_no_directory.
    + intros p Hp Hne. now apply F, written_not_above_first.
  - exists e, h1. split; [now apply seq_raised|].
    intros p Hp Hne. now apply F, written_not_above_first.
Qed.

End Run.

Section InstallerProperties.
Import Installer.
Local Open Scope list_scope.
Local Open Scope py_scope.

(** X13. In the first script [write_file] fails on every path without
    a directory part: [os.path.dirname] gives the empty string,
    [os.makedirs] raises FileNotFoundError on it, and nothing is
    written or printed. *)
Theorem X13_first_script_write_file_needs_a_directory :
  forall path content is_binary h,
    existsb is_slash (list_ascii_of_string path) = false ->
    write_file setup_project_py path content is_binary h =
      (Raised FileNotFoundError, h).
Proof. intros *. apply write_file_no_directory. Qed.

Lemma X13_witness :
  write_file setup_project_py "settings.gradle" (Str "rootProject") false
    empty_host = (Raised FileNotFoundError, empty_host).
Proof.
  apply (X13_first_script_write_file_needs_a_directory "settings.gradle").
  reflexivity.
Defined.

(** X14. The first script never runs to its end: on every host it ends
    in an exception, and of the paths it was to write none but the
    workflow file has been touched. *)
Theorem X14_first_script_never_completes :
  forall text h,
    exists e h',
      main setup_project_py text h = (Raised e, h') /\
      forall p,
        In p written -> p <> ".github/workflows/build-apk.yml"%string ->
        fs h' (key p) = fs h (key p).
Proof. intros text h. apply main_first_raises. Qed.











End InstallerProperties.
